(** * llmclient: retry loop and schema generator

    A shallow embedding of the Go package [llmclient] (types.go with the
    retry policy and the options, the client, the schema generator) and
    the properties its specification states about it.

    Conventions of the embedding.
    - A Go [int] / [int64] / [time.Duration] is a [Z]; where the source
      can leave the 64-bit range the wrap-around is written with [wrap64].
    - A Go [string] is a [string] (a sequence of bytes).
    - A Go [error] value is an [error]; a [nil] error is [None].
    - A Go [map[string]interface{}] is a [gmap string JSON].
    - What the package gets from outside (the context, the HTTP transport,
      encoding/json, the scheduler's choice in a [select]) is a field of
      [World]. *)

From stdpp Require Import gmap strings list pretty.
From Stdlib Require Import ZArith Lia Ascii Sorted.

#[local] Open Scope Z_scope.
#[local] Set Warnings "-register-all,-clear-no-such-hyp".

(* ================================================================== *)
(** * Go runtime: integers, strings, errors *)
(* ================================================================== *)

Definition int64_min : Z := - 2 ^ 63.
Definition int64_max : Z := 2 ^ 63 - 1.

(** Two's complement wrap-around of a 64-bit signed operation. *)
Definition wrap64 (z : Z) : Z := (z + 2 ^ 63) mod 2 ^ 64 - 2 ^ 63.

(** [fmt]'s [%d] verb. *)
Definition fmt_d (n : Z) : string := pretty n.

(** [strings.Split(s, sep)] for a one-byte separator. *)
Fixpoint strings_Split (s : string) (sep : ascii) : list string :=
  match s with
  | EmptyString => [EmptyString]
  | String ch rest =>
      if Ascii.eqb ch sep then EmptyString :: strings_Split rest sep
      else match strings_Split rest sep with
           | hd :: tl => String ch hd :: tl
           | [] => [String ch EmptyString]
           end
  end.

(** [strip_prefix p s] is [Some rest] when [s = p ++ rest]. It carries
    both [strings.HasPrefix] and [strings.TrimPrefix]. *)
Fixpoint strip_prefix (p s : string) : option string :=
  match p, s with
  | EmptyString, _ => Some s
  | String a p', String b s' => if Ascii.eqb a b then strip_prefix p' s' else None
  | String _ _, EmptyString => None
  end.

Definition strings_HasPrefix (s p : string) : bool :=
  match strip_prefix p s with Some _ => true | None => false end.

Definition strings_TrimPrefix (s p : string) : string :=
  match strip_prefix p s with Some rest => rest | None => s end.

(** Error values. [Canceled] and [DeadlineExceeded] are the two sentinel
    errors of package context. [LibError] is an error built by a library
    (net/http, net/url, encoding/json), with what its [Unwrap] returns.
    [Errorf] is an error built by [fmt.Errorf]: the formatted message and
    the operand of [%w], if the format has one and it is not nil. *)
Inductive error : Type :=
| Canceled
| DeadlineExceeded
| LibError (msg : string) (cause : option error)
| Errorf (msg : string) (cause : option error).

(** The [Error()] method. *)
Definition Error (e : error) : string :=
  match e with
  | Canceled => "context canceled"
  | DeadlineExceeded => "context deadline exceeded"
  | LibError msg _ => msg
  | Errorf msg _ => msg
  end.

(** The [Unwrap()] method. *)
Definition Unwrap (e : error) : option error :=
  match e with
  | Canceled | DeadlineExceeded => None
  | LibError _ cause => cause
  | Errorf _ cause => cause
  end.

(** [fmt.Errorf(prefix + "%w", cause)]. With a nil operand [fmt] prints
    the bad-verb text and wraps nothing. *)
Definition Errorf_w (prefix : string) (cause : option error) : error :=
  match cause with
  | Some e => Errorf (prefix +:+ Error e) (Some e)
  | None => Errorf (prefix +:+ "%!w(<nil>)") None
  end.

(** [errors.Is(e, context.Canceled) || errors.Is(e, context.DeadlineExceeded)]:
    the error is, or wraps, a cancellation of the context. *)
Fixpoint is_context_error (e : error) : bool :=
  match e with
  | Canceled | DeadlineExceeded => true
  | LibError _ (Some c) | Errorf _ (Some c) => is_context_error c
  | LibError _ None | Errorf _ None => false
  end.

(** What a Go function call does: it returns a value with a nil error,
    returns a non-nil error, or panics. *)
Inductive result (A : Type) : Type :=
| Ok (a : A)
| Err (e : error)
| Panic (msg : string).
Arguments Ok {A} a.
Arguments Err {A} e.
Arguments Panic {A} msg.

(* ================================================================== *)
(** * types.go: the retry policy *)
(* ================================================================== *)

(** The part of [*http.Response] the package reads. *)
Record Response : Type := mkResponse {
  StatusCode : Z;
  Body : string
}.

(** [shouldRetry(err, resp)]. With [err == nil] the source reads
    [resp.StatusCode]; [Chat] never passes two nils (that call would
    dereference a nil pointer), the model answers [false] there. *)
Definition shouldRetry (err : option error) (resp : option Response) : bool :=
  match err with
  | Some _ => true
  | None =>
      match resp with
      | Some r => (500 <=? StatusCode r) || (StatusCode r =? 429)
      | None => false
      end
  end.

(** [time.Second], in nanoseconds, the unit of [time.Duration]. *)
Definition Second : Z := 1000000000.

Section Backoff.

(** [time.Duration(x)] of a float64 [x] that an int64 cannot hold is
    implementation-dependent in Go: [float_overflow attempt] is what the
    platform gives for [math.Pow(2, float64(attempt))] then. *)
Variable float_overflow : Z -> Z.

(** [time.Duration(math.Pow(2, float64(attempt)))]. [math.Pow] of base 2
    and an integral exponent is exact: [2^attempt] for
    [0 <= attempt], a value in [0,1) that truncates to 0 for a negative
    exponent; from [2^63] on the conversion overflows. *)
Definition pow2_duration (attempt : Z) : Z :=
  if attempt <? 0 then 0
  else if attempt <? 63 then 2 ^ attempt
  else float_overflow attempt.

(** [backoff(attempt)]: the product with [time.Second] is an int64
    multiplication. *)
Definition backoff (attempt : Z) : Z :=
  wrap64 (pow2_duration attempt * Second).

End Backoff.

(** The conversion of amd64: every out-of-range value becomes [int64_min]. *)
Definition amd64_overflow : Z -> Z := fun _ => int64_min.

(* ================================================================== *)
(** * types.go: the data model *)
(* ================================================================== *)

(** The values the package stores in a [map[string]interface{}]: a
    string, a [[]string] and a nested map. *)
Inductive JSON : Type :=
| JString (s : string)
| JStrings (l : list string)
| JObject (m : gmap string JSON).

(** A [float32] field, as its IEEE-754 bit pattern; the package only
    stores and forwards these. *)
Definition float32 : Type := Z.

Record Message : Type := mkMessage {
  Role : string;
  Content : string
}.

(** [JSONSchema] is [None] for a nil map. *)
Record ChatRequest : Type := mkChatRequest {
  Model : string;
  Messages : list Message;
  Temperature : float32;
  TopP : float32;
  MaxTokens : Z;
  Stop : list string;
  N : Z;
  PresencePenalty : float32;
  FrequencyPenalty : float32;
  JSONSchema : option (gmap string JSON)
}.

Record Choice : Type := mkChoice {
  ChoiceMessage : Message;
  FinishReason : string
}.

Record Usage : Type := mkUsage {
  PromptTokens : Z;
  CompletionTokens : Z;
  TotalTokens : Z
}.

Record ChatResponse : Type := mkChatResponse {
  Choices : list Choice;
  ResponseUsage : Usage
}.

(** The zero value of [ChatResponse] ([var resp ChatResponse]). *)
Definition zeroChatResponse : ChatResponse :=
  {| Choices := []; ResponseUsage := mkUsage 0 0 0 |}.

(** [ChatRequest{Messages: msgs}] and
    [ChatRequest{Messages: msgs, JSONSchema: schema}]: the other fields
    at their zero value. *)
Definition newChatRequest (msgs : list Message)
    (schema : option (gmap string JSON)) : ChatRequest :=
  {| Model := ""; Messages := msgs; Temperature := 0; TopP := 0;
     MaxTokens := 0; Stop := []; N := 0; PresencePenalty := 0;
     FrequencyPenalty := 0; JSONSchema := schema |}.

(** [req.Model = m]. *)
Definition set_Model (req : ChatRequest) (m : string) : ChatRequest :=
  {| Model := m; Messages := Messages req; Temperature := Temperature req;
     TopP := TopP req; MaxTokens := MaxTokens req; Stop := Stop req;
     N := N req; PresencePenalty := PresencePenalty req;
     FrequencyPenalty := FrequencyPenalty req; JSONSchema := JSONSchema req |}.

(* ================================================================== *)
(** * Package reflect: types as the generator sees them *)
(* ================================================================== *)

(** [reflect.Kind]. *)
Inductive Kind : Type :=
| Bool | Int | Int8 | Int16 | Int32 | Int64
| Uint | Uint8 | Uint16 | Uint32 | Uint64 | Uintptr
| Float32 | Float64 | Complex64 | Complex128
| Array | Chan | Func | Interface | Map | Pointer | Slice
| String_ | Struct | UnsafePointer.

(** [Kind.String()], the text [%s] prints. *)
Definition Kind_String (k : Kind) : string :=
  match k with
  | Bool => "bool" | Int => "int" | Int8 => "int8" | Int16 => "int16"
  | Int32 => "int32" | Int64 => "int64" | Uint => "uint" | Uint8 => "uint8"
  | Uint16 => "uint16" | Uint32 => "uint32" | Uint64 => "uint64"
  | Uintptr => "uintptr" | Float32 => "float32" | Float64 => "float64"
  | Complex64 => "complex64" | Complex128 => "complex128"
  | Array => "array" | Chan => "chan" | Func => "func"
  | Interface => "interface" | Map => "map" | Pointer => "ptr"
  | Slice => "slice" | String_ => "string" | Struct => "struct"
  | UnsafePointer => "unsafe.Pointer"
  end.

(** The kinds without element type or fields. *)
Inductive Basic : Type :=
| BBool | BInt | BInt8 | BInt16 | BInt32 | BInt64
| BUint | BUint8 | BUint16 | BUint32 | BUint64 | BUintptr
| BFloat32 | BFloat64 | BComplex64 | BComplex128
| BString | BUnsafePointer.

Definition Basic_Kind (b : Basic) : Kind :=
  match b with
  | BBool => Bool | BInt => Int | BInt8 => Int8 | BInt16 => Int16
  | BInt32 => Int32 | BInt64 => Int64 | BUint => Uint | BUint8 => Uint8
  | BUint16 => Uint16 | BUint32 => Uint32 | BUint64 => Uint64
  | BUintptr => Uintptr | BFloat32 => Float32 | BFloat64 => Float64
  | BComplex64 => Complex64 | BComplex128 => Complex128
  | BString => String_ | BUnsafePointer => UnsafePointer
  end.

(** [reflect.StructField]. [Tag] is the struct tag already split into its
    [key:"value"] pairs, in order; [PkgPath] is empty for an exported
    field. *)
Record StructField (T : Type) : Type := mkField {
  Name : string;
  PkgPath : string;
  Typ : T;
  Tag : list (string * string);
  Anonymous : bool
}.
Arguments mkField {T}.
Arguments Name {T}.
Arguments PkgPath {T}.
Arguments Typ {T}.
Arguments Tag {T}.
Arguments Anonymous {T}.

(** [reflect.Type], as a finite tree: the element types and the fields
    are the subtrees. A type that refers to itself is not in this model
    (on such a type the generator recurses without end). *)
Inductive GoType : Type :=
| TBasic (b : Basic)
| TArray (len : Z) (elem : GoType)
| TSlice (elem : GoType)
| TPtr (elem : GoType)
| TChan (elem : GoType)
| TMap (key elem : GoType)
| TFunc
| TInterface
| TStruct (fields : list (StructField GoType)).

(** [t.Kind()]. *)
Definition Kind_of (t : GoType) : Kind :=
  match t with
  | TBasic b => Basic_Kind b
  | TArray _ _ => Array
  | TSlice _ => Slice
  | TPtr _ => Pointer
  | TChan _ => Chan
  | TMap _ _ => Map
  | TFunc => Func
  | TInterface => Interface
  | TStruct _ => Struct
  end.

(** [field.IsExported()]. *)
Definition IsExported {T} (f : StructField T) : bool :=
  String.eqb (PkgPath f) "".

(** [field.Tag.Get(key)]: the value of the first pair with that key, the
    empty string without one. *)
Fixpoint Tag_Get (tag : list (string * string)) (key : string) : string :=
  match tag with
  | [] => ""
  | (k, v) :: rest => if String.eqb k key then v else Tag_Get rest key
  end.

(* ================================================================== *)
(** * The schema generator *)
(* ================================================================== *)

(** A schema node, [map[string]interface{}]. *)
Abbreviation Schema := (gmap string JSON).

(** [fmt.Errorf("неподдерживаемый тип: %s", t.Kind())]. *)
Definition unsupportedType (k : Kind) : error :=
  Errorf ("неподдерживаемый тип: " +:+ Kind_String k) None.

(** [fmt.Errorf("ожидалась структура, получен %s", t.Kind())]. *)
Definition expectedStruct (k : Kind) : error :=
  Errorf ("ожидалась структура, получен " +:+ Kind_String k) None.

(** [fmt.Errorf("ошибка в поле %s: %w", field.Name, err)]. *)
Definition fieldError (name : string) (err : error) : error :=
  Errorf_w ("ошибка в поле " +:+ name +:+ ": ") (Some err).

(** The loop of [parseSchemaTag] over the parts of the tag. *)
Fixpoint parseSchemaParts (parts : list string) (key : string) : string :=
  match parts with
  | [] => ""
  | part :: rest =>
      if strings_HasPrefix part (key +:+ "=")
      then strings_TrimPrefix part (key +:+ "=")
      else parseSchemaParts rest key
  end.

Definition parseSchemaTag (tag key : string) : string :=
  parseSchemaParts (strings_Split tag ";") key.

(** [parts[0]] of the json tag, or the field's name when it is empty
    ([strings.Split] never returns an empty slice). *)
Definition jsonName {T} (field : StructField T) : string :=
  let parts := strings_Split (Tag_Get (Tag field) "json") "," in
  let name := hd "" parts in
  if String.eqb name "" then Name field else name.

(** The [isOptional] flag: some part after the first is [omitempty]. *)
Definition isOptional {T} (field : StructField T) : bool :=
  let parts := strings_Split (Tag_Get (Tag field) "json") "," in
  existsb (String.eqb "omitempty") (tl parts).

Section ObjectSchema.

(** The recursive call [generateSchemaForType]. *)
Variable generate : GoType -> result Schema.

(** One pass through the body of the loop over the fields: the
    properties and [requiredFields] before and after. *)
Definition objectField (field : StructField GoType)
    (props : Schema) (requiredFields : list string)
    : result (Schema * list string) :=
  if negb (IsExported field) then Ok (props, requiredFields)
  else if Anonymous field then
    match generate (Typ field) with
    | Err err => Err err
    | Panic msg => Panic msg
    | Ok embeddedSchema =>
        match embeddedSchema !! "properties" with
        | Some (JObject embeddedProps) =>
            let props' := embeddedProps ∪ props in
            match embeddedSchema !! "required" with
            | Some (JStrings required) =>
                Ok (props', requiredFields ++ required)
            | _ => Ok (props', requiredFields)
            end
        | _ =>
            Panic "interface conversion: interface {} is not map[string]interface {}"
        end
    end
  else if String.eqb (Tag_Get (Tag field) "json") "-" then
    Ok (props, requiredFields)
  else
    let requiredFields' :=
      if negb (isOptional field) then requiredFields ++ [jsonName field]
      else requiredFields in
    match generate (Typ field) with
    | Err err => Err (fieldError (Name field) err)
    | Panic msg => Panic msg
    | Ok propSchema =>
        let desc := parseSchemaTag (Tag_Get (Tag field) "schema") "description" in
        let propSchema' :=
          if negb (String.eqb desc "")
          then <["description" := JString desc]> propSchema
          else propSchema in
        Ok (<[jsonName field := JObject propSchema']> props, requiredFields')
    end.

(** The loop [for i := 0; i < t.NumField(); i++]. *)
Fixpoint objectFields (fields : list (StructField GoType))
    (props : Schema) (requiredFields : list string)
    : result (Schema * list string) :=
  match fields with
  | [] => Ok (props, requiredFields)
  | field :: rest =>
      match objectField field props requiredFields with
      | Ok (props', requiredFields') => objectFields rest props' requiredFields'
      | Err err => Err err
      | Panic msg => Panic msg
      end
  end.

(** The object node once the loop is over: [required] is set only for
    a non-empty list. *)
Definition objectNode (props : Schema) (requiredFields : list string) : Schema :=
  let schema : Schema :=
    <["properties" := JObject props]> {["type" := JString "object"]} in
  if (0 <? Z.of_nat (List.length requiredFields))
  then <["required" := JStrings requiredFields]> schema
  else schema.

(** [generateObjectSchema], on the fields of the struct type. *)
Definition generateObjectSchema_with (fields : list (StructField GoType))
    : result Schema :=
  match objectFields fields ∅ [] with
  | Ok (props, requiredFields) => Ok (objectNode props requiredFields)
  | Err err => Err err
  | Panic msg => Panic msg
  end.

(** [generateArraySchema], on the element type. *)
Definition generateArraySchema_with (elem : GoType) : result Schema :=
  match generate elem with
  | Ok elementSchema =>
      Ok (<["items" := JObject elementSchema]> {["type" := JString "array"]})
  | Err err => Err err
  | Panic msg => Panic msg
  end.

End ObjectSchema.

(** [generateSchemaForType]: the [switch] on [t.Kind()]. *)
Fixpoint generateSchemaForType (t : GoType) : result Schema :=
  match t with
  | TStruct fields => generateObjectSchema_with generateSchemaForType fields
  | TSlice elem | TArray _ elem => generateArraySchema_with generateSchemaForType elem
  | TBasic BString => Ok {["type" := JString "string"]}
  | TBasic (BInt | BInt8 | BInt16 | BInt32 | BInt64
            | BUint | BUint8 | BUint16 | BUint32 | BUint64) =>
      Ok {["type" := JString "integer"]}
  | TBasic (BFloat32 | BFloat64) => Ok {["type" := JString "number"]}
  | TBasic BBool => Ok {["type" := JString "boolean"]}
  | TPtr elem => generateSchemaForType elem
  | _ => Err (unsupportedType (Kind_of t))
  end.

Definition generateObjectSchema (fields : list (StructField GoType)) : result Schema :=
  generateObjectSchema_with generateSchemaForType fields.

Definition generateArraySchema (elem : GoType) : result Schema :=
  generateArraySchema_with generateSchemaForType elem.

(** [GenerateSchema(instance)]. [reflect.TypeOf] of a nil interface is
    nil, and [t.Kind()] then panics; otherwise the argument is the
    dynamic type of [instance]. *)
Definition GenerateSchema (instance : option GoType) : result Schema :=
  match instance with
  | None => Panic "invalid memory address or nil pointer dereference"
  | Some t0 =>
      let t := match t0 with TPtr elem => elem | _ => t0 end in
      match Kind_of t with
      | Struct => generateSchemaForType t
      | k => Err (expectedStruct k)
      end
  end.

(** ** [cleanJSONResponse] *)

(** A byte below [utf8.RuneSelf] (0x80). *)
Definition isASCII (c : ascii) : bool :=
  match c with Ascii _ _ _ _ _ _ _ high => negb high end.

(** The table [asciiSpace] of package strings: tab, line feed, vertical
    tab, form feed, carriage return and space. *)
Definition asciiSpace (c : ascii) : bool :=
  existsb (Nat.eqb (Ascii.nat_of_ascii c)) [9; 10; 11; 12; 13; 32]%nat.

(** [strip_suffix suffix s] is [Some front] when [s = front ++ suffix]. It
    carries [strings.HasSuffix] and [strings.TrimSuffix]. *)
Fixpoint strip_suffix (suffix s : string) : option string :=
  if String.eqb s suffix then Some EmptyString
  else match s with
       | EmptyString => None
       | String ch rest =>
           match strip_suffix suffix rest with
           | Some front => Some (String ch front)
           | None => None
           end
       end.

Definition strings_TrimSuffix (s suffix : string) : string :=
  match strip_suffix suffix s with Some front => front | None => s end.

Section TrimSpace.

(** [strings.TrimFunc(s, unicode.IsSpace)] and
    [strings.TrimRightFunc(s, unicode.IsSpace)], which [strings.TrimSpace]
    falls back to when it meets a byte that is not ASCII. *)
Variable unicode_TrimFunc : string -> string.
Variable unicode_TrimRightFunc : string -> string.

(** The first loop of [strings.TrimSpace]: [inl rest] when it stops at
    the first byte that is no ASCII space (or at the end), [inr rest] when
    it meets a byte that is not ASCII first; [rest] is [s[start:]]. *)
Fixpoint skipSpaceLeft (s : string) : string + string :=
  match s with
  | EmptyString => inl EmptyString
  | String c rest =>
      if negb (isASCII c) then inr s
      else if asciiSpace c then skipSpaceLeft rest
      else inl s
  end.

(** The second loop, from the end of [s[start:]]: [inl kept] when it
    stops at the last byte that is no ASCII space, [inr kept] when it meets
    a byte that is not ASCII first; [kept] is [s[start:stop]]. *)
Fixpoint skipSpaceRight (s : string) : string + string :=
  match s with
  | EmptyString => inl EmptyString
  | String c rest =>
      match skipSpaceRight rest with
      | inl EmptyString =>
          if negb (isASCII c) then inr (String c EmptyString)
          else if asciiSpace c then inl EmptyString
          else inl (String c EmptyString)
      | inl kept => inl (String c kept)
      | inr kept => inr (String c kept)
      end
  end.

(** [strings.TrimSpace]. *)
Definition strings_TrimSpace (s : string) : string :=
  match skipSpaceLeft s with
  | inr rest => unicode_TrimFunc rest
  | inl rest =>
      match skipSpaceRight rest with
      | inl kept => kept
      | inr kept => unicode_TrimRightFunc kept
      end
  end.

(** [cleanJSONResponse]. *)
Definition cleanJSONResponse (content : string) : string :=
  let content := strings_TrimSpace content in
  let content := strings_TrimPrefix content "```json" in
  let content := strings_TrimSuffix content "```" in
  strings_TrimSpace content.

End TrimSpace.

(** The struct of the specification's example:
    [Name string `json:"name"`] and [Age int `json:"age,omitempty"`]. *)
Definition personType : GoType :=
  TStruct [ mkField "Name" "" (TBasic BString) [("json", "name")] false;
            mkField "Age" "" (TBasic BInt) [("json", "age,omitempty")] false ].

(* ================================================================== *)
(** * The client *)
(* ================================================================== *)

(** The [*http.Client] a client holds: the default one or one the caller
    supplied. *)
Inductive HttpClient : Type :=
| DefaultClient
| CustomClient (name : string).

Record Client : Type := mkClient {
  baseURL : string;
  apiKey : string;
  model : string;
  httpClient : HttpClient;
  maxRetries : Z
}.

(** The functional options. *)
Definition Option : Type := Client -> Client.

Definition WithHttpClient (h : HttpClient) : Option :=
  fun c => {| baseURL := baseURL c; apiKey := apiKey c; model := model c;
              httpClient := h; maxRetries := maxRetries c |}.

Definition WithMaxRetries (n : Z) : Option :=
  fun c => {| baseURL := baseURL c; apiKey := apiKey c; model := model c;
              httpClient := httpClient c; maxRetries := n |}.

Definition NewClient (baseURL apiKey model : string) (opts : list Option) : Client :=
  fold_left (fun c opt => opt c) opts
    {| baseURL := baseURL; apiKey := apiKey; model := model;
       httpClient := DefaultClient; maxRetries := 3 |}.

(** The options the package offers; a caller outside the package cannot
    write to the fields of [Client] by other means. *)
Inductive packageOption : Option -> Prop :=
| option_HttpClient h : packageOption (WithHttpClient h)
| option_MaxRetries n : packageOption (WithMaxRetries n).

(** The caller's [context.Context]: the instant its [Done()] channel is
    closed ([None]: never) and what [Err()] returns from then on. *)
Record Context : Type := mkContext {
  Done_at : option Z;
  ctx_Err : error
}.

(** [context.Background()]. *)
Definition Background : Context := {| Done_at := None; ctx_Err := Canceled |}.

(** The request handed to the transport. *)
Record HttpRequest : Type := mkHttpRequest {
  Method : string;
  URL : string;
  Header : list (string * string);
  RequestBody : string
}.

(** What is outside the package. Instants are in nanoseconds.
    - [start]: the instant [Chat] is called;
    - [float_overflow_of]: the platform's out-of-range float conversion
      (see [backoff]);
    - [select_both_ready attempt]: whether the [select] before that
      attempt takes the [ctx.Done()] case when both cases are ready;
    - [json_Marshal], [json_Decode], [json_Unmarshal]: encoding/json
      ([json_Decode] gives the value decoded so far and the error);
    - [http_NewRequest method url]: the error of
      [http.NewRequestWithContext], if any;
    - [http_Do client attempt request now]: what [client.Do] returns for
      the call made at [now] in that attempt, and the instant it returns. *)
Record World : Type := mkWorld {
  start : Z;
  float_overflow_of : Z -> Z;
  select_both_ready : Z -> bool;
  json_Marshal : ChatRequest -> string + error;
  json_Decode : string -> ChatResponse * option error;
  json_Unmarshal : string -> option GoType -> option error;
  http_NewRequest : string -> string -> option error;
  http_Do : HttpClient -> Z -> HttpRequest -> Z -> (Response + error) * Z
}.

(** A call of [httpClient.Do]: the attempt, the request [Chat] was
    sending and its HTTP form. *)
Record Sent : Type := mkSent {
  sent_attempt : Z;
  sent_request : ChatRequest;
  sent_http : HttpRequest
}.

(** Which case of the [select] runs. *)
Inductive Selected : Type :=
| CtxDone
| TimerFired (now : Z).

Section Client.

Variable w : World.

(** The instants at which the two channels of
    [select { case <-ctx.Done(): ... case <-time.After(d): }], entered
    at [now], become ready. *)
Definition done_ready (ctx : Context) (now : Z) : option Z :=
  match Done_at ctx with
  | Some closed => Some (Z.max closed now)
  | None => None
  end.

Definition timer_ready (now d : Z) : Z := now + Z.max 0 d.

(** The [select]: the case that is ready first runs; when both are
    ready at once Go picks one of them. *)
Definition select_Done_or_After (ctx : Context) (attempt now d : Z) : Selected :=
  match done_ready ctx now with
  | None => TimerFired (timer_ready now d)
  | Some closed =>
      if closed <? timer_ready now d then CtxDone
      else if timer_ready now d <? closed then TimerFired (timer_ready now d)
      else if select_both_ready w attempt then CtxDone
      else TimerFired (timer_ready now d)
  end.

(** [doRequest]: the response or the error, the instant it returns,
    and the call of the transport it made, if it came to that. *)
Definition doRequest (c : Client) (attempt now : Z) (req : ChatRequest)
    : (Response + error) * Z * option Sent :=
  match json_Marshal w req with
  | inr err => (inr (Errorf_w "failed to marshal request: " (Some err)), now, None)
  | inl jsonData =>
      let url := baseURL c +:+ "/chat/completions" in
      match http_NewRequest w "POST" url with
      | Some err => (inr (Errorf_w "failed to create request: " (Some err)), now, None)
      | None =>
          let httpReq :=
            {| Method := "POST"; URL := url;
               Header := [("Content-Type", "application/json");
                          ("Authorization", "Bearer " +:+ apiKey c)];
               RequestBody := jsonData |} in
          let '(out, returned) := http_Do w (httpClient c) attempt httpReq now in
          (out, returned, Some (mkSent attempt req httpReq))
      end
  end.

(** [parseResponse]. *)
Definition parseResponse (resp : Response) : ChatResponse * option error :=
  if negb (StatusCode resp =? 200) then
    (zeroChatResponse,
     Some (Errorf ("API error: status " +:+ fmt_d (StatusCode resp)
                   +:+ ", body: " +:+ Body resp) None))
  else
    let '(result, err) := json_Decode w (Body resp) in
    match err with
    | Some e => (result, Some (Errorf_w "failed to decode response: " (Some e)))
    | None =>
        if (Z.of_nat (List.length (Choices result)) =? 0)
        then (result, Some (Errorf "no choices in response" None))
        else (result, None)
    end.

(** The variables of the loop of [Chat], and the calls of the
    transport so far. *)
Record LoopState : Type := mkLoopState {
  attempt : Z;
  now : Z;
  lastErr : option error;
  sent : list Sent
}.

(** What [Chat] returns, with the calls of the transport it made. *)
Record ChatRun : Type := mkChatRun {
  returned : ChatResponse * option error;
  calls : list Sent
}.

Inductive Step : Type :=
| Continue (st : LoopState)
| Return (run : ChatRun).

(** [fmt.Errorf("HTTP %d", apiResp.StatusCode)]. *)
Definition httpStatusError (status : Z) : error :=
  Errorf ("HTTP " +:+ fmt_d status) None.

(** The head of a pass: the wait before a retry, raced against the
    context; the first attempt does not wait. *)
Definition waitBackoff (ctx : Context) (st : LoopState) : Selected :=
  if 0 <? attempt st
  then select_Done_or_After ctx (attempt st) (now st)
         (backoff (float_overflow_of w) (attempt st - 1))
  else TimerFired (now st).

(** One pass through the body of the [for] loop. *)
Definition iteration (c : Client) (ctx : Context) (req : ChatRequest)
    (st : LoopState) : Step :=
  match waitBackoff ctx st with
  | CtxDone => Return (mkChatRun (zeroChatResponse, Some (ctx_Err ctx)) (sent st))
  | TimerFired woke =>
      let '(out, back, call) := doRequest c (attempt st) woke req in
      let sent' := sent st ++ match call with Some s => [s] | None => [] end in
      match out with
      | inr err =>
          if negb (shouldRetry (Some err) None)
          then Return (mkChatRun (zeroChatResponse, Some err) sent')
          else Continue (mkLoopState (attempt st + 1) back (Some err) sent')
      | inl apiResp =>
          if negb (shouldRetry None (Some apiResp))
          then Return (mkChatRun (parseResponse apiResp) sent')
          else Continue (mkLoopState (attempt st + 1) back
                           (Some (httpStatusError (StatusCode apiResp))) sent')
      end
  end.

(** [fmt.Errorf("max retries exceeded: %w", lastErr)]. *)
Definition maxRetriesExceeded (lastErr : option error) : error :=
  Errorf_w "max retries exceeded: " lastErr.

(** The [for] loop with [passes] passes left: the loop
    [for attempt := 0; attempt <= c.maxRetries; attempt++] runs its body
    for [attempt = 0, ..., maxRetries], [maxRetries + 1] times (none for
    a negative [maxRetries]), unless a pass returns. (For
    [maxRetries = int64_max] the counter of the source would wrap after
    [2^63] passes and the loop go on.) *)
Fixpoint chatLoop (c : Client) (ctx : Context) (req : ChatRequest)
    (passes : nat) (st : LoopState) : ChatRun :=
  match passes with
  | O => mkChatRun (zeroChatResponse, Some (maxRetriesExceeded (lastErr st))) (sent st)
  | S passes' =>
      match iteration c ctx req st with
      | Return run => run
      | Continue st' => chatLoop c ctx req passes' st'
      end
  end.

(** The request [Chat] works with: the client's model for an empty
    [req.Model]. *)
Definition withDefaultModel (c : Client) (req : ChatRequest) : ChatRequest :=
  if String.eqb (Model req) "" then set_Model req (model c) else req.

Definition initialState : LoopState := mkLoopState 0 (start w) None [].

(** [Chat]. *)
Definition Chat (c : Client) (ctx : Context) (req : ChatRequest) : ChatRun :=
  chatLoop c ctx (withDefaultModel c req) (Z.to_nat (maxRetries c + 1)) initialState.

(** The state of the loop at the head of its [i]-th pass, [None] when
    [Chat] has returned before. *)
Fixpoint stateAt (c : Client) (ctx : Context) (req : ChatRequest) (i : nat)
    : option LoopState :=
  match i with
  | O => if 0 <=? maxRetries c then Some initialState else None
  | S i' =>
      match stateAt c ctx req i' with
      | Some st =>
          if Z.of_nat (S i') <=? maxRetries c then
            match iteration c ctx (withDefaultModel c req) st with
            | Continue st' => Some st'
            | Return _ => None
            end
          else None
      | None => None
      end
  end.

(** The messages of [SimpleRequest]. *)
Definition simpleMessages (systemPrompt userPrompt : string) : list Message :=
  let messages := [] in
  let messages :=
    if negb (String.eqb systemPrompt "")
    then messages ++ [mkMessage "system" systemPrompt]
    else messages in
  messages ++ [mkMessage "user" userPrompt].

(** What [SimpleRequest] makes of the result of [Chat]. *)
Definition simpleResult (r : ChatResponse * option error) : string * option error :=
  match r with
  | (_, Some err) => ("", Some err)
  | (resp, None) =>
      match Choices resp with
      | [] => ("", Some (Errorf "no choices in response" None))
      | first :: _ => (Content (ChoiceMessage first), None)
      end
  end.

(** [SimpleRequest], with the run of [Chat] it made. *)
Definition SimpleRequest (c : Client) (ctx : Context)
    (systemPrompt userPrompt : string) : (string * option error) * ChatRun :=
  let req := newChatRequest (simpleMessages systemPrompt userPrompt) None in
  let run := Chat c ctx req in
  (simpleResult (returned run), run).

(** [RequestWithSchema]: the error it returns ([Ok tt] for nil) and the
    calls of the transport it made. [schema] is the dynamic type of the
    target ([None] for a nil interface); the value that
    [json.Unmarshal] writes into the target is not part of the model. *)
Definition RequestWithSchema (c : Client) (ctx : Context)
    (systemPrompt userPrompt : string) (schema : option GoType)
    : result unit * list Sent :=
  match GenerateSchema schema with
  | Panic msg => (Panic msg, [])
  | Err err => (Err err, [])
  | Ok jsonSchema =>
      let req := newChatRequest
                   [mkMessage "system" systemPrompt; mkMessage "user" userPrompt]
                   (Some jsonSchema) in
      let run := Chat c ctx req in
      match returned run with
      | (_, Some err) => (Err err, calls run)
      | (resp, None) =>
          match Choices resp with
          | [] => (Err (Errorf "no choices in response" None), calls run)
          | first :: _ =>
              match json_Unmarshal w (Content (ChoiceMessage first)) schema with
              | Some err => (Err err, calls run)
              | None => (Ok tt, calls run)
              end
          end
      end
  end.

End Client.

(* ================================================================== *)
(** * Notions of the specification *)
(* ================================================================== *)

(** The type [GenerateSchema] looks at: the argument's type after the
    dereference of one top-level pointer. *)
Definition derefOnce (t : GoType) : GoType :=
  match t with TPtr elem => elem | _ => t end.

(** A field that becomes a property of the object node: exported, not
    embedded, not tagged [json:"-"]. *)
Definition isProperty {T} (field : StructField T) : bool :=
  IsExported field && negb (Anonymous field)
  && negb (String.eqb (Tag_Get (Tag field) "json") "-").

(** The required list as the specification words it: a property is
    required unless its tag carries [omitempty]; the list of an embedded
    struct is merged into the parent's. *)
Fixpoint requiredOf (t : GoType) : list string :=
  match t with
  | TStruct fields =>
      (fix of_fields (fs : list (StructField GoType)) : list string :=
         match fs with
         | [] => []
         | field :: rest =>
             (if negb (IsExported field) then []
              else if Anonymous field then requiredOf (Typ field)
              else if String.eqb (Tag_Get (Tag field) "json") "-" then []
              else if isOptional field then []
              else [jsonName field]) ++ of_fields rest
         end) fields
  | TPtr elem => requiredOf elem
  | _ => []
  end.

(** The kinds the generator has no schema for. *)
Definition unsupportedKind (t : GoType) : bool :=
  match t with
  | TChan _ | TMap _ _ | TFunc | TInterface
  | TBasic (BUintptr | BComplex64 | BComplex128 | BUnsafePointer) => true
  | _ => false
  end.

(** The error for an unsupported kind met under the fields [path],
    outermost first: the kind error, wrapped once for each field. *)
Definition errorAt (path : list string) (kind : Kind) : error :=
  fold_right fieldError (unsupportedType kind) path.

(** The text of that error: the names of the fields on the way, the
    innermost last, then the kind. *)
Definition errorTextAt (path : list string) (kind : Kind) : string :=
  fold_right (fun name rest => ("ошибка в поле " +:+ name +:+ ": ") +:+ rest)
    ("неподдерживаемый тип: " +:+ Kind_String kind) path.

(** [FailsAt t path kind]: the unsupported [kind] is reached in [t]
    through the properties [path] (outermost first), going through
    pointers, slices, arrays, properties of structs and exported embedded
    structs, the fields before each one on the way being processed without
    failure. The last name of [path] is the immediate field: the property
    whose type is of the unsupported kind, under pointers, slices and
    arrays only. An embedded field passes on a failure that names a field
    already; an unsupported kind that is embedded itself is not a case. *)
Inductive FailsAt : GoType -> list string -> Kind -> Prop :=
| FailsAt_kind t :
    unsupportedKind t = true -> FailsAt t [] (Kind_of t)
| FailsAt_ptr elem path kind :
    FailsAt elem path kind -> FailsAt (TPtr elem) path kind
| FailsAt_slice elem path kind :
    FailsAt elem path kind -> FailsAt (TSlice elem) path kind
| FailsAt_array len elem path kind :
    FailsAt elem path kind -> FailsAt (TArray len elem) path kind
| FailsAt_field before field after props required path kind :
    objectFields generateSchemaForType before ∅ [] = Ok (props, required) ->
    isProperty field = true ->
    FailsAt (Typ field) path kind ->
    FailsAt (TStruct (before ++ field :: after)) (Name field :: path) kind
| FailsAt_embedded before field after props required path kind :
    objectFields generateSchemaForType before ∅ [] = Ok (props, required) ->
    IsExported field = true ->
    Anonymous field = true ->
    path <> [] ->
    FailsAt (Typ field) path kind ->
    FailsAt (TStruct (before ++ field :: after)) path kind.

(** A call of the transport that carries the request [req]: its wire
    body is that request marshalled. *)
Definition carries (w : World) (req : ChatRequest) (s : Sent) : Prop :=
  sent_request s = req /\ json_Marshal w req = inl (RequestBody (sent_http s)).

(** No backoff wait that the run of [Chat] comes to is cut short by the
    context: at the head of every pass the timer case of the [select]
    runs. *)
Definition waitsComplete (w : World) (c : Client) (ctx : Context)
    (req : ChatRequest) : Prop :=
  forall i st,
    stateAt w c ctx req i = Some st ->
    exists woke, waitBackoff w ctx st = TimerFired woke.

(** An attempt that yields status 429 or 5xx, whenever it is made. *)
Definition yieldsRetryable (w : World) (c : Client) (req : ChatRequest) (i : Z) : Prop :=
  forall t, exists resp back call,
    doRequest w c i t req = (inl resp, back, call) /\
    (StatusCode resp = 429 \/ 500 <= StatusCode resp <= 599).

(** An attempt that yields status 200 with a body that decodes to
    [result], whenever it is made. *)
Definition yieldsSuccess (w : World) (c : Client) (req : ChatRequest) (i : Z)
    (result : ChatResponse) : Prop :=
  forall t, exists body back call,
    doRequest w c i t req = (inl (mkResponse 200 body), back, call) /\
    json_Decode w body = (result, None).

(** An attempt that fails before a response is there (the request
    cannot be built, or the transport returns an error), whenever it is
    made. *)
Definition yieldsError (w : World) (c : Client) (req : ChatRequest) (i : Z) : Prop :=
  forall t, exists err back call, doRequest w c i t req = (inr err, back, call).

(** A request that [doRequest] cannot build, and the error it returns
    then: [json.Marshal] fails, or [http.NewRequestWithContext] does. *)
Definition unbuildable (w : World) (c : Client) (req : ChatRequest) (err : error) : Prop :=
  (exists e, json_Marshal w req = inr e
             /\ err = Errorf_w "failed to marshal request: " (Some e))
  \/ (exists data e,
        json_Marshal w req = inl data
        /\ http_NewRequest w "POST" (baseURL c +:+ "/chat/completions") = Some e
        /\ err = Errorf_w "failed to create request: " (Some e)).

(** A list of options, by name: what a caller writes after the three
    strings of [NewClient]. *)
Inductive OptionChoice : Type :=
| UseHttpClient (h : HttpClient)
| UseMaxRetries (n : Z).

Definition applyChoice (o : OptionChoice) : Option :=
  match o with
  | UseHttpClient h => WithHttpClient h
  | UseMaxRetries n => WithMaxRetries n
  end.

(** The last retry budget and the last HTTP client a list of options
    names, with the defaults of [NewClient] when it names none. *)
Definition chosenRetries (choices : list OptionChoice) : Z :=
  fold_left (fun acc o => match o with UseMaxRetries n => n | UseHttpClient _ => acc end)
    choices 3.

Definition chosenHttpClient (choices : list OptionChoice) : HttpClient :=
  fold_left (fun acc o => match o with UseHttpClient h => h | UseMaxRetries _ => acc end)
    choices DefaultClient.

(** A type under all its pointers. *)
Fixpoint derefAll (t : GoType) : GoType :=
  match t with TPtr elem => derefAll elem | _ => t end.

(** The names of the properties of the object node of a struct: the
    JSON names of its properties, with those of its exported embedded
    structs. *)
Fixpoint propertyNames (t : GoType) : gset string :=
  match t with
  | TStruct fields =>
      (fix of_fields (fs : list (StructField GoType)) : gset string :=
         match fs with
         | [] => ∅
         | field :: rest =>
             (if negb (IsExported field) then ∅
              else if Anonymous field then propertyNames (Typ field)
              else if String.eqb (Tag_Get (Tag field) "json") "-" then ∅
              else {[jsonName field]}) ∪ of_fields rest
         end) fields
  | TPtr elem => propertyNames elem
  | _ => ∅
  end.

(** The node of a property: the schema of the field's type, with the
    description of the field's [schema] tag when it has one. *)
Definition withDescription (field : StructField GoType) (propSchema : Schema) : Schema :=
  let desc := parseSchemaTag (Tag_Get (Tag field) "schema") "description" in
  if negb (String.eqb desc "") then <["description" := JString desc]> propSchema
  else propSchema.

(** A string of ASCII spaces only. *)
Fixpoint allSpace (s : string) : bool :=
  match s with
  | EmptyString => true
  | String c rest => asciiSpace c && allSpace rest
  end.

(** An ASCII byte that is no space. *)
Definition visible (c : ascii) : bool := isASCII c && negb (asciiSpace c).

(** A string that starts, and one that ends, with a visible byte. *)
Definition firstVisible (s : string) : bool :=
  match s with
  | EmptyString => false
  | String c _ => visible c
  end.

Fixpoint lastVisible (s : string) : bool :=
  match s with
  | EmptyString => false
  | String c EmptyString => visible c
  | String _ rest => lastVisible rest
  end.

(** [strings.Join(parts, sep)] for a one-byte separator. *)
Fixpoint strings_Join (parts : list string) (sep : ascii) : string :=
  match parts with
  | [] => EmptyString
  | [part] => part
  | part :: rest => part +:+ String sep (strings_Join rest sep)
  end.

(** The byte [b] does not occur in [s]. *)
Fixpoint freeOf (b : ascii) (s : string) : Prop :=
  match s with
  | EmptyString => True
  | String ch rest => ch <> b /\ freeOf b rest
  end.

(* ================================================================== *)
(** * Fixtures: a scripted server, as in the package's tests *)
(* ================================================================== *)

Definition sampleResponse : ChatResponse :=
  {| Choices := [mkChoice (mkMessage "assistant" "Success after retry") "stop"];
     ResponseUsage := mkUsage 10 5 15 |}.

(** A world whose transport answers the [i]-th attempt with [script i]
    after [latency], and whose decoder knows two bodies. *)
Definition scriptedWorld (latency : Z) (script : Z -> Response + error) : World :=
  {| start := 0;
     float_overflow_of := amd64_overflow;
     select_both_ready := fun _ => false;
     json_Marshal := fun _ => inl "{}";
     json_Decode := fun body =>
       if String.eqb body "one choice" then (sampleResponse, None)
       else if String.eqb body "no choices" then (zeroChatResponse, None)
       else (zeroChatResponse, Some (LibError "unexpected end of JSON input" None));
     json_Unmarshal := fun _ _ => None;
     http_NewRequest := fun _ _ => None;
     http_Do := fun _ i _ t => (script i, t + latency) |}.

(** 100ms and 50ms. *)
Definition ms100 : Z := 100000000.
Definition ms50 : Z := 50000000.

Definition helloRequest : ChatRequest :=
  set_Model (newChatRequest [mkMessage "user" "Hello"] None) "gpt-3.5-turbo".

Definition testClient (opts : list Option) : Client :=
  NewClient "http://127.0.0.1/v1" "test-key" "model" opts.

(** 429 twice, then 200. *)
Definition retryScript (i : Z) : Response + error :=
  if i <? 2 then inl (mkResponse 429 "") else inl (mkResponse 200 "one choice").

(** 500 on every call. *)
Definition failingScript (i : Z) : Response + error :=
  inl (mkResponse 500 "").

(** The caller's deadline (50ms) passes during the first call. *)
Definition timeoutContext : Context :=
  {| Done_at := Some ms50; ctx_Err := DeadlineExceeded |}.

(** The [*url.Error] of a call that the deadline interrupted. *)
Definition timeoutError : error :=
  let quote := String (Ascii.ascii_of_nat 34) EmptyString in
  LibError ("Post " +:+ quote +:+ "http://127.0.0.1/v1/chat/completions" +:+ quote
            +:+ ": context deadline exceeded")
    (Some DeadlineExceeded).

Definition timeoutScript (i : Z) : Response + error := inr timeoutError.

(** A request without a model, and the call of the transport that the
    test client makes for it. *)
Definition plainRequest : ChatRequest :=
  newChatRequest [mkMessage "user" "Hello"] None.

Definition plainSent : Sent :=
  mkSent 0 (set_Model plainRequest "model")
    (mkHttpRequest "POST" "http://127.0.0.1/v1/chat/completions"
       [("Content-Type", "application/json"); ("Authorization", "Bearer test-key")]
       "{}").

(** The call of the first attempt for [helloRequest]. *)
Definition helloSent : Sent :=
  mkSent 0 helloRequest
    (mkHttpRequest "POST" "http://127.0.0.1/v1/chat/completions"
       [("Content-Type", "application/json"); ("Authorization", "Bearer test-key")]
       "{}").

(** A context that the caller cancels half a second after the start,
    during the first backoff. *)
Definition cancelledContext : Context :=
  {| Done_at := Some (5 * ms100); ctx_Err := Canceled |}.

(** A struct that embeds a slice type, and one that embeds an
    interface. *)
Definition embedsSlice : GoType :=
  TStruct [ mkField "Tags" "" (TSlice (TBasic BString)) [] true;
            mkField "Name" "" (TBasic BString) [("json", "name")] false ].

Definition embedsInterface : GoType :=
  TStruct [ mkField "Reader" "" TInterface [] true ].

(** A struct with an embedded struct, a described property that
    takes the place of one of the embedded ones, and an unexported
    field. *)
Definition describedType : GoType :=
  TStruct [ mkField "Person" "" personType [] true;
            mkField "Name" "" (TBasic BString)
              [("json", "name"); ("schema", "format=plain;description=Full name")] false;
            mkField "secret" "llmclient" (TBasic BString) [] false ].

(** The schema of [describedType]: the described [name] has taken the
    place of the embedded one, and is listed twice as required. *)
Definition describedSchema : Schema :=
  <["type" := JString "object"]>
    (<["properties" :=
         JObject (<["name" := JObject (<["description" := JString "Full name"]>
                                         {["type" := JString "string"]})]>
                    {["age" := JObject {["type" := JString "integer"]}]})]>
       {["required" := JStrings ["name"; "name"]]}).

(** A line feed, and a fenced answer as a model gives it: the text
    holds bytes that are not ASCII between its braces. *)
Definition lineFeed : string := String (Ascii.ascii_of_nat 10) EmptyString.

Definition answerText : string :=
  "{" +:+ String (Ascii.ascii_of_nat 195) (String (Ascii.ascii_of_nat 169) "}").

Definition fencedAnswer : string :=
  "  " +:+ ("```json" +:+ lineFeed +:+ answerText +:+ lineFeed +:+ "```") +:+ lineFeed.

(** 404 on every call. *)
Definition notFoundScript (i : Z) : Response + error :=
  inl (mkResponse 404 "not found").

(** No server: every call is refused. *)
Definition refusedError : error := LibError "connection refused" None.

Definition refusedScript (i : Z) : Response + error := inr refusedError.

(** A world in which the request cannot be marshalled (a NaN among the
    sampling parameters, say). *)
Definition unmarshallableWorld : World :=
  {| start := 0;
     float_overflow_of := amd64_overflow;
     select_both_ready := fun _ => false;
     json_Marshal := fun _ => inr (LibError "json: unsupported value: NaN" None);
     json_Decode := fun _ => (zeroChatResponse, None);
     json_Unmarshal := fun _ _ => None;
     http_NewRequest := fun _ _ => None;
     http_Do := fun _ _ _ t => (inl (mkResponse 200 "one choice"), t) |}.

(** The schema of the specification's example. *)
Definition personSchema : Schema :=
  <["type" := JString "object"]>
    (<["properties" :=
         JObject (<["name" := JObject {["type" := JString "string"]}]>
                    {["age" := JObject {["type" := JString "integer"]}]})]>
       {["required" := JStrings ["name"]]}).

(** A struct with a map-valued field that is tagged [json:"-"]. *)
Definition cachedType : GoType :=
  TStruct [ mkField "Name" "" (TBasic BString) [("json", "name")] false;
            mkField "Cache" "" (TMap (TBasic BString) (TBasic BInt))
              [("json", "-")] false ].

(** A struct that embeds a struct with a map-valued property, after a
    property of its own. *)
Definition embedsTaggedType : GoType :=
  TStruct [ mkField "ID" "" (TBasic BInt) [("json", "id")] false;
            mkField "Inner" ""
              (TStruct [ mkField "M" "" (TMap (TBasic BString) (TBasic BInt)) [] false ])
              [] true ].

(** A struct with a map-valued property. *)
Definition taggedType : GoType :=
  TStruct [ mkField "Name" "" (TBasic BString) [("json", "name")] false;
            mkField "Labels" "" (TMap (TBasic BString) (TBasic BString))
              [("json", "labels")] false ].

(* ================================================================== *)
(** * The retry policy: properties *)
(* ================================================================== *)

Lemma wrap64_small (z : Z) : int64_min <= z <= int64_max -> wrap64 z = z.
Proof.
  unfold wrap64, int64_min, int64_max. intros Hz.
  rewrite Z.mod_small by lia. lia.
Qed.

Lemma backoff_in_range (ovf : Z -> Z) (i : Z) :
  0 <= i <= 33 -> backoff ovf i = 2 ^ i * Second.
Proof.
  intros Hi. unfold backoff, pow2_duration.
  destruct (Z.ltb_spec i 0) as [Hneg|_]; [lia|].
  destruct (Z.ltb_spec i 63) as [_|Hbig]; [|lia].
  apply wrap64_small.
  assert (Hpos : 0 < 2 ^ i) by (apply Z.pow_pos_nonneg; lia).
  assert (Hle : 2 ^ i <= 2 ^ 33) by (apply Z.pow_le_mono_r; lia).
  change (2 ^ 33) with 8589934592 in Hle.
  unfold int64_min, int64_max, Second.
  change (2 ^ 63) with 9223372036854775808. lia.
Qed.

(** C3, the claim as stated fails: the delay is an int64 count of
    nanoseconds, and 2^34 seconds is more than it holds. [backoff 34] is
    negative, and smaller than [backoff 33]. *)
Lemma backoff_wraps_at_34 :
  backoff amd64_overflow 34 = -1266874889709551616
  /\ backoff amd64_overflow 34 <> 2 ^ 34 * Second
  /\ ~ backoff amd64_overflow 33 <= backoff amd64_overflow 34.
Proof.
  repeat split.
  - vm_compute. intros Heq. discriminate Heq.
  - vm_compute. intros Hle. apply Hle. reflexivity.
Qed.

(** C3, amended: for every attempt index [0 <= i <= 33] the delay is
    exactly [2^i] seconds (1s, 2s, 4s, 8s for 0, 1, 2, 3), and the delay
    is non-decreasing over that range; it depends on the index alone
    (not even on the platform's float conversion). *)
Theorem backoff_exact_up_to_33 (ovf : Z -> Z) (i j : Z) :
  0 <= i <= j -> j <= 33 ->
  backoff ovf i = 2 ^ i * Second
  /\ backoff ovf i <= backoff ovf j
  /\ (backoff ovf 0 = 1 * Second /\ backoff ovf 1 = 2 * Second
      /\ backoff ovf 2 = 4 * Second /\ backoff ovf 3 = 8 * Second).
Proof.
  intros Hij Hj. split; [|split].
  - apply backoff_in_range. lia.
  - rewrite !backoff_in_range by lia.
    apply Z.mul_le_mono_nonneg_r; [unfold Second; lia|].
    apply Z.pow_le_mono_r; lia.
  - rewrite !backoff_in_range by lia. repeat split; reflexivity.
Qed.

Lemma backoff_exact_up_to_33_witness :
  backoff amd64_overflow 2 = 2 ^ 2 * Second
  /\ backoff amd64_overflow 2 <= backoff amd64_overflow 5
  /\ (backoff amd64_overflow 0 = 1 * Second /\ backoff amd64_overflow 1 = 2 * Second
      /\ backoff amd64_overflow 2 = 4 * Second /\ backoff amd64_overflow 3 = 8 * Second).
Proof. apply (backoff_exact_up_to_33 amd64_overflow 2 5); lia. Defined.

Lemma backoff_positive (ovf : Z -> Z) (i : Z) : 0 <= i <= 33 -> 0 < backoff ovf i.
Proof.
  intros Hi. rewrite backoff_in_range by exact Hi.
  assert (0 < 2 ^ i) by (apply Z.pow_pos_nonneg; lia).
  unfold Second. lia.
Qed.

(** What [shouldRetry] answers: any error, and the statuses 429 and 500
    and above. *)
Lemma shouldRetry_error (err : error) (resp : option Response) :
  shouldRetry (Some err) resp = true.
Proof. reflexivity. Qed.

Lemma shouldRetry_status (resp : Response) :
  shouldRetry None (Some resp) = true <->
  (StatusCode resp = 429 \/ 500 <= StatusCode resp).
Proof.
  unfold shouldRetry. rewrite orb_true_iff, Z.leb_le, Z.eqb_eq. tauto.
Qed.

(* ================================================================== *)
(** * The schema generator: properties *)
(* ================================================================== *)

(** Induction on a type, with the hypothesis for the type of every
    field of a struct. *)
Lemma GoType_fields_ind (P : GoType -> Prop) :
  (forall b, P (TBasic b)) ->
  (forall len elem, P elem -> P (TArray len elem)) ->
  (forall elem, P elem -> P (TSlice elem)) ->
  (forall elem, P elem -> P (TPtr elem)) ->
  (forall elem, P elem -> P (TChan elem)) ->
  (forall key elem, P key -> P elem -> P (TMap key elem)) ->
  P TFunc ->
  P TInterface ->
  (forall fields, Forall (fun field => P (Typ field)) fields -> P (TStruct fields)) ->
  forall t, P t.
Proof.
  intros Hbasic Harray Hslice Hptr Hchan Hmap Hfunc Hinterface Hstruct.
  fix IH 1. intros [b|len elem|elem|elem|elem|key elem| | |fields].
  - apply Hbasic.
  - apply Harray, IH.
  - apply Hslice, IH.
  - apply Hptr, IH.
  - apply Hchan, IH.
  - apply Hmap; apply IH.
  - apply Hfunc.
  - apply Hinterface.
  - apply Hstruct. induction fields as [|field rest IHrest].
    + constructor.
    + constructor; [apply IH | exact IHrest].
Qed.

Lemma strings_Split_nonempty (s : string) (sep : ascii) : strings_Split s sep <> [].
Proof.
  destruct s as [|ch rest]; simpl; [discriminate|].
  destruct (Ascii.eqb ch sep); [discriminate|].
  destruct (strings_Split rest sep); discriminate.
Qed.

(** C10: for every argument whose type, after the dereference of at most
    one top-level pointer, is not a struct, [GenerateSchema] returns an
    error (that names the kind it found) and no schema. *)
Theorem GenerateSchema_rejects_non_struct (t : GoType) :
  Kind_of (derefOnce t) <> Struct ->
  GenerateSchema (Some t) = Err (expectedStruct (Kind_of (derefOnce t))).
Proof.
  intros Hkind. unfold GenerateSchema. fold (derefOnce t).
  destruct (derefOnce t) as [b|len elem|elem|elem|elem|key elem| | |fields];
    try reflexivity.
  - destruct b; reflexivity.
  - exfalso. apply Hkind. reflexivity.
Qed.

Lemma GenerateSchema_rejects_non_struct_witness :
  GenerateSchema (Some (TPtr (TSlice (TBasic BString))))
  = Err (expectedStruct Slice).
Proof.
  apply (GenerateSchema_rejects_non_struct (TPtr (TSlice (TBasic BString)))).
  simpl. discriminate.
Defined.

(** Kinds that have a schema at a nested position are refused at the
    top. *)
Example generateSchemaForType_nested_kinds :
  generateSchemaForType (TBasic BString) = Ok {["type" := JString "string"]}
  /\ GenerateSchema (Some (TBasic BString)) = Err (expectedStruct String_)
  /\ GenerateSchema (Some (TBasic BInt)) = Err (expectedStruct Int)
  /\ GenerateSchema (Some (TBasic BBool)) = Err (expectedStruct Bool)
  /\ GenerateSchema (Some (TSlice (TBasic BInt))) = Err (expectedStruct Slice)
  /\ GenerateSchema (Some (TPtr (TPtr personType))) = Err (expectedStruct Pointer).
Proof. repeat split. Qed.

(** The outcome of the loop over the fields, field list split in two. *)
Lemma objectFields_app (gen : GoType -> result Schema)
    (l1 l2 : list (StructField GoType)) (props : Schema) (req : list string) :
  objectFields gen (l1 ++ l2) props req =
  match objectFields gen l1 props req with
  | Ok (props', req') => objectFields gen l2 props' req'
  | Err err => Err err
  | Panic msg => Panic msg
  end.
Proof.
  revert props req. induction l1 as [|field rest IH]; intros props req; simpl.
  - reflexivity.
  - destruct (objectField gen field props req) as [[props' req']|err|msg];
      [apply IH | reflexivity | reflexivity].
Qed.

Lemma objectField_property_error (gen : GoType -> result Schema)
    (field : StructField GoType) (props : Schema) (req : list string) (err : error) :
  isProperty field = true ->
  gen (Typ field) = Err err ->
  objectField gen field props req = Err (fieldError (Name field) err).
Proof.
  unfold isProperty, objectField. intros Hprop Hgen.
  apply andb_true_iff in Hprop as [Hprop Hdash].
  apply andb_true_iff in Hprop as [Hexp Hanon].
  rewrite Hexp. simpl.
  apply negb_true_iff in Hanon, Hdash. rewrite Hanon, Hdash, Hgen. reflexivity.
Qed.

Lemma FailsAt_generate (t : GoType) (path : list string) (kind : Kind) :
  FailsAt t path kind -> generateSchemaForType t = Err (errorAt path kind).
Proof.
  induction 1 as [t Hkind|elem path kind _ IH|elem path kind _ IH|len elem path kind _ IH
                 |before field after props required path kind Hbefore Hprop _ IH
                 |before field after props required path kind Hbefore Hexp Hanon _ _ IH].
  - destruct t as [b|len elem|elem|elem|elem|key elem| | |fields];
      try discriminate Hkind; try reflexivity.
    destruct b; try discriminate Hkind; reflexivity.
  - simpl. exact IH.
  - simpl. unfold generateArraySchema_with. rewrite IH. reflexivity.
  - simpl. unfold generateArraySchema_with. rewrite IH. reflexivity.
  - simpl. unfold generateObjectSchema_with.
    rewrite objectFields_app, Hbefore. simpl.
    rewrite (objectField_property_error _ _ _ _ (errorAt path kind) Hprop IH). reflexivity.
  - simpl. unfold generateObjectSchema_with.
    rewrite objectFields_app, Hbefore. simpl. unfold objectField.
    rewrite Hexp, Hanon. simpl. rewrite IH. reflexivity.
Qed.

(** In a struct the failure is under a field: the path is not empty. *)
Lemma FailsAt_struct_path (fields : list (StructField GoType)) (path : list string)
    (kind : Kind) :
  FailsAt (TStruct fields) path kind -> exists outer immediate, path = outer ++ [immediate].
Proof.
  intros Hfails.
  assert (Hne : path <> []).
  { inversion Hfails as [t Hkind| | | |? ? ? ? ? ? ? _ _ _|? ? ? ? ? ? ? _ _ _ Hpath _]; subst.
    - discriminate Hkind.
    - discriminate.
    - exact Hpath. }
  destruct (exists_last Hne) as (outer & immediate & ->). eauto.
Qed.

Lemma errorAt_text (path : list string) (kind : Kind) :
  Error (errorAt path kind) = errorTextAt path kind.
Proof.
  induction path as [|name path IH]; [reflexivity|].
  simpl. rewrite IH. reflexivity.
Qed.

(** What a property adds to [requiredFields]: its name, unless its tag
    carries [omitempty]. *)
Lemma objectField_property_required (gen : GoType -> result Schema)
    (field : StructField GoType) (props props' : Schema) (req req' : list string) :
  isProperty field = true ->
  objectField gen field props req = Ok (props', req') ->
  req' = if isOptional field then req else req ++ [jsonName field].
Proof.
  unfold isProperty, objectField. intros Hprop Hstep.
  apply andb_true_iff in Hprop as [Hprop Hdash].
  apply andb_true_iff in Hprop as [Hexp Hanon].
  rewrite Hexp in Hstep. simpl in Hstep.
  apply negb_true_iff in Hanon, Hdash. rewrite Hanon, Hdash in Hstep.
  destruct (gen (Typ field)) as [ps|err|msg]; try discriminate Hstep.
  injection Hstep as _ Hreq. rewrite <- Hreq.
  destruct (isOptional field); reflexivity.
Qed.

Lemma objectNode_required (props : Schema) (req : list string) :
  objectNode props req !! "required" =
  match req with [] => None | _ :: _ => Some (JStrings req) end.
Proof.
  unfold objectNode. destruct req as [|name rest].
  - change (0 <? Z.of_nat (List.length (@nil string))) with false. cbv iota.
    rewrite lookup_insert_ne by discriminate.
    apply lookup_singleton_ne. discriminate.
  - replace (0 <? Z.of_nat (List.length (name :: rest))) with true
      by (symmetry; apply Z.ltb_lt; simpl List.length; lia).
    cbv iota. apply lookup_insert_eq.
Qed.

(** The generator's [required] key against the specification's list. *)
Lemma generate_required (t : GoType) :
  forall schema,
    generateSchemaForType t = Ok schema ->
    schema !! "required" =
    match requiredOf t with [] => None | _ :: _ => Some (JStrings (requiredOf t)) end.
Proof.
  induction t as [b|len elem IH|elem IH|elem IH|elem IH|key elem IHk IH| | |fields IH]
    using GoType_fields_ind; intros schema Hgen.
  - destruct b; simpl in Hgen; try discriminate Hgen;
      injection Hgen as <-; reflexivity.
  - simpl in Hgen. unfold generateArraySchema_with in Hgen.
    destruct (generateSchemaForType elem); try discriminate Hgen.
    injection Hgen as <-. reflexivity.
  - simpl in Hgen. unfold generateArraySchema_with in Hgen.
    destruct (generateSchemaForType elem); try discriminate Hgen.
    injection Hgen as <-. reflexivity.
  - simpl in Hgen. simpl requiredOf. apply IH. exact Hgen.
  - discriminate Hgen.
  - discriminate Hgen.
  - discriminate Hgen.
  - discriminate Hgen.
  - simpl in Hgen. unfold generateObjectSchema_with in Hgen.
    assert (Hloop : forall props req props' req',
               objectFields generateSchemaForType fields props req = Ok (props', req') ->
               req' = req ++ requiredOf (TStruct fields)).
    { clear Hgen schema.
      induction IH as [|field rest Hfield _ IHrest]; intros props req props' req' Hloop.
      - simpl in Hloop. injection Hloop as _ <-. simpl. symmetry. apply app_nil_r.
      - simpl in Hloop.
        destruct (objectField generateSchemaForType field props req)
          as [[props1 req1]|err|msg] eqn:Hstep; try discriminate Hloop.
        apply IHrest in Hloop. rewrite Hloop. clear Hloop.
        change (requiredOf (TStruct (field :: rest))) with
          ((if negb (IsExported field) then []
            else if Anonymous field then requiredOf (Typ field)
            else if String.eqb (Tag_Get (Tag field) "json") "-" then []
            else if isOptional field then []
            else [jsonName field]) ++ requiredOf (TStruct rest)).
        rewrite app_assoc. f_equal.
        unfold objectField in Hstep.
        destruct (negb (IsExported field)).
        { injection Hstep as _ <-. symmetry. apply app_nil_r. }
        destruct (Anonymous field).
        { destruct (generateSchemaForType (Typ field)) as [emb|err|msg] eqn:Hemb;
            try discriminate Hstep.
          specialize (Hfield emb eq_refl).
          destruct (emb !! "properties") as [[s|l|m]|]; try discriminate Hstep.
          rewrite Hfield in Hstep.
          destruct (requiredOf (Typ field)) as [|name names].
          - injection Hstep as _ <-. symmetry. apply app_nil_r.
          - injection Hstep as _ <-. reflexivity. }
        destruct (String.eqb (Tag_Get (Tag field) "json") "-").
        { injection Hstep as _ <-. symmetry. apply app_nil_r. }
        destruct (generateSchemaForType (Typ field)) as [ps|err|msg];
          try discriminate Hstep.
        injection Hstep as _ <-.
        destruct (isOptional field); simpl; [symmetry; apply app_nil_r | reflexivity]. }
    destruct (objectFields generateSchemaForType fields ∅ []) as [[props req]|err|msg] eqn:Hfields;
      try discriminate Hgen.
    injection Hgen as <-. apply Hloop in Hfields. simpl in Hfields.
    rewrite objectNode_required, Hfields. reflexivity.
Qed.

(** C8: the struct with [Name string] (plain tag) and [Age int] (tag with
    [omitempty]) gives the object schema with the two properties and
    [required = [name]]; in general a property is left out of [required]
    iff its tag carries [omitempty], the list of the object node is the
    one the specification describes, and the [required] key is there only
    for a non-empty list. *)
Theorem generateObjectSchema_required :
  generateSchemaForType personType = Ok personSchema
  /\ (forall gen (field : StructField GoType) props req props' req',
        isProperty field = true ->
        objectField gen field props req = Ok (props', req') ->
        (isOptional field = true -> req' = req)
        /\ (isOptional field = false -> req' = req ++ [jsonName field]))
  /\ (forall t schema,
        generateSchemaForType t = Ok schema ->
        (requiredOf t = [] -> schema !! "required" = None)
        /\ (requiredOf t <> [] -> schema !! "required" = Some (JStrings (requiredOf t)))).
Proof.
  split; [|split].
  - vm_compute. reflexivity.
  - intros gen field props req props' req' Hprop Hstep.
    apply objectField_property_required in Hstep; [|exact Hprop].
    split; intros Hopt; rewrite Hopt in Hstep; exact Hstep.
  - intros t schema Hgen. apply generate_required in Hgen.
    destruct (requiredOf t) as [|name names]; split; intros Hreq;
      try exact Hgen; try discriminate Hreq. exfalso. apply Hreq. reflexivity.
Qed.

Lemma generateObjectSchema_required_witness :
  GenerateSchema (Some (TPtr personType)) = Ok personSchema
  /\ personSchema !! "required" = Some (JStrings ["name"]).
Proof.
  split.
  - exact (proj1 generateObjectSchema_required).
  - apply (proj2 (proj2 generateObjectSchema_required) personType personSchema).
    + vm_compute. reflexivity.
    + vm_compute. discriminate.
Defined.

(** C9, the claim as stated fails: a map-valued field that is tagged
    [json:"-"] (or is unexported) is skipped, the schema is generated and
    [RequestWithSchema] goes on to the network; and for an interface that
    is embedded the error names no field. *)
Lemma skipped_field_is_not_an_error :
  GenerateSchema (Some (TPtr cachedType)) =
    Ok (<["type" := JString "object"]>
          (<["properties" := JObject {["name" := JObject {["type" := JString "string"]}]}]>
             {["required" := JStrings ["name"]]}))
  /\ List.length (snd (RequestWithSchema (scriptedWorld ms100 retryScript) (testClient [])
                         Background "system" "user" (Some (TPtr cachedType)))) = 3%nat
  /\ GenerateSchema (Some (TPtr embedsInterface))
     = Err (Errorf "неподдерживаемый тип: interface" None).
Proof. repeat split; vm_compute; reflexivity. Qed.

(** C9, amended: for every struct type in which a field of an
    unsupported kind (map, function, channel, interface, complex,
    uintptr, unsafe pointer) is reached through properties (exported,
    named fields not tagged [json:"-"]), exported embedded structs,
    pointers, slices and arrays, the fields before each one on the way
    being processed without failure, schema generation fails with the
    error that names the immediate field where the unsupported type
    occurred (after the fields that lead to it), and [RequestWithSchema]
    on such a target returns that error without any network call. *)
Theorem unsupported_property_fails (w : World) (c : Client) (ctx : Context)
    (systemPrompt userPrompt : string)
    (fields : list (StructField GoType)) (path : list string) (kind : Kind) :
  FailsAt (TStruct fields) path kind ->
  generateSchemaForType (TStruct fields) = Err (errorAt path kind)
  /\ GenerateSchema (Some (TStruct fields)) = Err (errorAt path kind)
  /\ GenerateSchema (Some (TPtr (TStruct fields))) = Err (errorAt path kind)
  /\ (exists outer immediate,
        path = outer ++ [immediate]
        /\ errorAt path kind
           = fold_right fieldError (fieldError immediate (unsupportedType kind)) outer
        /\ Error (fieldError immediate (unsupportedType kind))
           = ("ошибка в поле " +:+ immediate +:+ ": ")
             +:+ ("неподдерживаемый тип: " +:+ Kind_String kind))
  /\ Error (errorAt path kind) = errorTextAt path kind
  /\ RequestWithSchema w c ctx systemPrompt userPrompt (Some (TStruct fields))
     = (Err (errorAt path kind), [])
  /\ RequestWithSchema w c ctx systemPrompt userPrompt (Some (TPtr (TStruct fields)))
     = (Err (errorAt path kind), []).
Proof.
  intros Hfails.
  assert (Hgen : generateSchemaForType (TStruct fields) = Err (errorAt path kind))
    by (apply FailsAt_generate; exact Hfails).
  assert (Hvalue : GenerateSchema (Some (TStruct fields)) = Err (errorAt path kind))
    by exact Hgen.
  assert (Htop : GenerateSchema (Some (TPtr (TStruct fields))) = Err (errorAt path kind))
    by exact Hgen.
  split; [exact Hgen|]. split; [exact Hvalue|]. split; [exact Htop|].
  split; [|split; [|split]].
  - destruct (FailsAt_struct_path fields path kind Hfails) as (outer & immediate & ->).
    exists outer, immediate. split; [reflexivity|]. split; [|reflexivity].
    unfold errorAt. rewrite fold_right_app. reflexivity.
  - apply errorAt_text.
  - unfold RequestWithSchema. rewrite Hvalue. reflexivity.
  - unfold RequestWithSchema. rewrite Htop. reflexivity.
Qed.

Lemma unsupported_property_fails_witness :
  (generateSchemaForType taggedType
     = Err (fieldError "Labels" (unsupportedType Map))
   /\ RequestWithSchema (scriptedWorld ms100 retryScript) (testClient []) Background
        "system" "user" (Some (TPtr taggedType))
      = (Err (fieldError "Labels" (unsupportedType Map)), []))
  /\ (generateSchemaForType embedsTaggedType
        = Err (fieldError "M" (unsupportedType Map))
      /\ Error (fieldError "M" (unsupportedType Map))
         = "ошибка в поле M: неподдерживаемый тип: map"
      /\ RequestWithSchema (scriptedWorld ms100 retryScript) (testClient []) Background
           "system" "user" (Some (TPtr embedsTaggedType))
         = (Err (fieldError "M" (unsupportedType Map)), [])).
Proof.
  assert (Hmap : forall key elem, FailsAt (TMap key elem) [] Map).
  { intros key elem. apply (FailsAt_kind (TMap key elem)). reflexivity. }
  assert (Htagged : FailsAt taggedType ["Labels"] Map).
  { apply (FailsAt_field
             [mkField "Name" "" (TBasic BString) [("json", "name")] false]
             (mkField "Labels" "" (TMap (TBasic BString) (TBasic BString))
                [("json", "labels")] false)
             []
             {["name" := JObject {["type" := JString "string"]}]} ["name"]).
    - vm_compute. reflexivity.
    - reflexivity.
    - apply Hmap. }
  assert (Hembeds : FailsAt embedsTaggedType ["M"] Map).
  { apply (FailsAt_embedded
             [mkField "ID" "" (TBasic BInt) [("json", "id")] false]
             (mkField "Inner" ""
                (TStruct [mkField "M" "" (TMap (TBasic BString) (TBasic BInt)) [] false])
                [] true)
             []
             {["id" := JObject {["type" := JString "integer"]}]} ["id"]).
    - vm_compute. reflexivity.
    - reflexivity.
    - reflexivity.
    - discriminate.
    - apply (FailsAt_field []
               (mkField "M" "" (TMap (TBasic BString) (TBasic BInt)) [] false) [] ∅ []).
      + reflexivity.
      + reflexivity.
      + apply Hmap. }
  pose proof (unsupported_property_fails (scriptedWorld ms100 retryScript) (testClient [])
                Background "system" "user" _ _ _ Htagged) as H1.
  pose proof (unsupported_property_fails (scriptedWorld ms100 retryScript) (testClient [])
                Background "system" "user" _ _ _ Hembeds) as H2.
  split.
  - split; [exact (proj1 H1) | exact (proj2 (proj2 (proj2 (proj2 (proj2 (proj2 H1))))))].
  - split; [exact (proj1 H2)|].
    split; [exact (proj1 (proj2 (proj2 (proj2 (proj2 H2)))))|].
    exact (proj2 (proj2 (proj2 (proj2 (proj2 (proj2 H2)))))).
Defined.

(* ================================================================== *)
(** * The client: properties *)
(* ================================================================== *)

Section ClientProperties.

Variable w : World.

(** C6: [parseResponse] returns, for a status other than 200, the error
    whose text holds the status code and the body; for a 200 whose body
    does not decode, the decode error; for a 200 that decodes to zero
    choices, an error; and otherwise the decoded response, which
    therefore has at least one choice. *)
Theorem parseResponse_cases (resp : Response) :
  (StatusCode resp <> 200 ->
     parseResponse w resp =
     (zeroChatResponse,
      Some (Errorf ("API error: status " +:+ fmt_d (StatusCode resp)
                    +:+ ", body: " +:+ Body resp) None)))
  /\ (StatusCode resp = 200 ->
      forall result e,
        json_Decode w (Body resp) = (result, Some e) ->
        parseResponse w resp =
        (result, Some (Errorf ("failed to decode response: " +:+ Error e) (Some e))))
  /\ (StatusCode resp = 200 ->
      forall result,
        json_Decode w (Body resp) = (result, None) ->
        Choices result = [] ->
        parseResponse w resp = (result, Some (Errorf "no choices in response" None)))
  /\ (StatusCode resp = 200 ->
      forall result,
        json_Decode w (Body resp) = (result, None) ->
        Choices result <> [] ->
        parseResponse w resp = (result, None))
  /\ (forall result,
        parseResponse w resp = (result, None) ->
        StatusCode resp = 200
        /\ json_Decode w (Body resp) = (result, None)
        /\ (1 <= List.length (Choices result))%nat).
Proof.
  unfold parseResponse. repeat split.
  - intros Hstatus. apply Z.eqb_neq in Hstatus. rewrite Hstatus. reflexivity.
  - intros Hstatus result e Hdecode. rewrite Hstatus, Hdecode. reflexivity.
  - intros Hstatus result Hdecode Hnone. rewrite Hstatus, Hdecode, Hnone. reflexivity.
  - intros Hstatus result Hdecode Hsome. rewrite Hstatus, Hdecode. simpl.
    destruct (Choices result) as [|first rest]; [contradiction|reflexivity].
  - destruct (Z.eqb_spec (StatusCode resp) 200) as [Hstatus|_];
      [exact Hstatus | discriminate H].
  - destruct (StatusCode resp =? 200); [|discriminate H]. simpl in H.
    destruct (json_Decode w (Body resp)) as [decoded [e|]]; [discriminate H|].
    destruct (Z.of_nat (List.length (Choices decoded)) =? 0);
      [discriminate H | congruence].
  - destruct (StatusCode resp =? 200); [|discriminate H]. simpl in H.
    destruct (json_Decode w (Body resp)) as [decoded [e|]]; [discriminate H|].
    destruct (Z.eqb_spec (Z.of_nat (List.length (Choices decoded))) 0) as [Hzero|Hpos];
      [discriminate H|].
    injection H as <-. lia.
Qed.

Lemma parseResponse_success (body : string) (result : ChatResponse) :
  json_Decode w body = (result, None) ->
  Choices result <> [] ->
  parseResponse w (mkResponse 200 body) = (result, None).
Proof.
  intros Hdecode Hsome. unfold parseResponse. simpl. rewrite Hdecode.
  destruct (Choices result) as [|first rest]; [contradiction|reflexivity].
Qed.

(** ** [doRequest] *)

Lemma doRequest_call (c : Client) (i t : Z) (req : ChatRequest)
    (out : Response + error) (back : Z) (s : Sent) :
  doRequest w c i t req = (out, back, Some s) ->
  sent_attempt s = i /\ sent_request s = req
  /\ json_Marshal w req = inl (RequestBody (sent_http s))
  /\ URL (sent_http s) = baseURL c +:+ "/chat/completions".
Proof.
  unfold doRequest. intros Hdo.
  destruct (json_Marshal w req) as [jsonData|err]; [|discriminate Hdo].
  destruct (http_NewRequest w "POST" _) as [err|]; [discriminate Hdo|].
  destruct (http_Do w _ _ _ _) as [out' back'].
  injection Hdo as _ _ <-. auto.
Qed.

Lemma doRequest_response (c : Client) (i t : Z) (req : ChatRequest)
    (resp : Response) (back : Z) (call : option Sent) :
  doRequest w c i t req = (inl resp, back, call) ->
  exists s, call = Some s.
Proof.
  unfold doRequest. intros Hdo.
  destruct (json_Marshal w req) as [jsonData|err]; [|discriminate Hdo].
  destruct (http_NewRequest w "POST" _) as [err|]; [discriminate Hdo|].
  destruct (http_Do w _ _ _ _) as [out' back'].
  injection Hdo as _ _ <-. eauto.
Qed.

(** ** The loop *)

Variable c : Client.
Variable ctx : Context.
Variable req : ChatRequest.

(** What a pass that goes on to the next leaves behind. *)
Lemma iteration_Continue (st st' : LoopState) :
  iteration w c ctx req st = Continue st' ->
  attempt st' = attempt st + 1
  /\ exists woke out call,
       waitBackoff w ctx st = TimerFired woke
       /\ doRequest w c (attempt st) woke req = (out, now st', call)
       /\ sent st' = sent st ++ match call with Some s => [s] | None => [] end.
Proof.
  unfold iteration. intros Hstep.
  destruct (waitBackoff w ctx st) as [|woke]; [discriminate Hstep|].
  destruct (doRequest w c (attempt st) woke req) as [[out back] call] eqn:Hdo.
  destruct out as [apiResp|err].
  - destruct (negb (shouldRetry None (Some apiResp))); [discriminate Hstep|].
    injection Hstep as <-. simpl. split; [reflexivity|].
    exists woke, (inl apiResp), call. auto.
  - simpl in Hstep. injection Hstep as <-. simpl. split; [reflexivity|].
    exists woke, (inr err), call. auto.
Qed.

(** The calls a pass leaves behind when it returns. *)
Lemma iteration_Return (st : LoopState) (run : ChatRun) :
  iteration w c ctx req st = Return run ->
  calls run = sent st
  \/ exists woke out back s,
       doRequest w c (attempt st) woke req = (out, back, Some s)
       /\ calls run = sent st ++ [s].
Proof.
  unfold iteration. intros Hstep.
  destruct (waitBackoff w ctx st) as [|woke].
  { injection Hstep as <-. left. reflexivity. }
  destruct (doRequest w c (attempt st) woke req) as [[out back] call] eqn:Hdo.
  assert (Hcalls : calls run = sent st ++ match call with Some s => [s] | None => [] end).
  { destruct out as [apiResp|err].
    - destruct (negb (shouldRetry None (Some apiResp))); [|discriminate Hstep].
      injection Hstep as <-. reflexivity.
    - simpl in Hstep. discriminate Hstep. }
  destruct call as [s|].
  - right. exists woke, out, back, s. auto.
  - left. rewrite Hcalls. apply app_nil_r.
Qed.

Lemma chatLoop_calls (passes : nat) (st : LoopState) :
  Forall (carries w req) (sent st) ->
  Forall (carries w req) (calls (chatLoop w c ctx req passes st)).
Proof.
  revert st. induction passes as [|passes IH]; intros st Hsent; simpl.
  - exact Hsent.
  - destruct (iteration w c ctx req st) as [st'|run] eqn:Hstep.
    + apply IH. apply iteration_Continue in Hstep as [_ (woke & out & call & _ & Hdo & ->)].
      apply Forall_app. split; [exact Hsent|].
      destruct call as [s|]; [|constructor].
      apply doRequest_call in Hdo as (_ & Hreq & Hbody & _).
      constructor; [split; assumption | constructor].
    + apply iteration_Return in Hstep as [->|(woke & out & back & s & Hdo & ->)].
      * exact Hsent.
      * apply Forall_app. split; [exact Hsent|].
        apply doRequest_call in Hdo as (_ & Hreq & Hbody & _).
        constructor; [split; assumption | constructor].
Qed.

End ClientProperties.

(** [NewClient] keeps the base URL, the key and the default model it is
    given, whatever options follow. *)
Lemma NewClient_model (url key name : string) (opts : list Option) :
  Forall packageOption opts ->
  baseURL (NewClient url key name opts) = url
  /\ apiKey (NewClient url key name opts) = key
  /\ model (NewClient url key name opts) = name.
Proof.
  intros Hopts. unfold NewClient.
  assert (Hgen : forall c1,
             baseURL (fold_left (fun c opt => opt c) opts c1) = baseURL c1
             /\ apiKey (fold_left (fun c opt => opt c) opts c1) = apiKey c1
             /\ model (fold_left (fun c opt => opt c) opts c1) = model c1).
  { induction Hopts as [|opt rest Hopt _ IH]; intros c1; simpl.
    - auto.
    - destruct (IH (opt c1)) as (Hurl & Hkey & Hmodel).
      rewrite Hurl, Hkey, Hmodel. destruct Hopt; auto. }
  apply (Hgen (mkClient url key name DefaultClient 3)).
Qed.

Section ChatProperties.

Variable w : World.
Variable c : Client.
Variable ctx : Context.

Lemma Chat_calls (req : ChatRequest) :
  Forall (carries w (withDefaultModel c req)) (calls (Chat w c ctx req)).
Proof. unfold Chat. apply chatLoop_calls. constructor. Qed.

Lemma withDefaultModel_cases (req : ChatRequest) :
  (Model req <> "" -> withDefaultModel c req = req)
  /\ (Model req = "" -> withDefaultModel c req = set_Model req (model c)).
Proof.
  unfold withDefaultModel.
  destruct (String.eqb_spec (Model req) "") as [Hempty|Hset]; split; intros H;
    try reflexivity; contradiction.
Qed.

(** C5, amended: for every call of [Chat], every request that goes to
    the transport is the caller's request, unchanged when its [Model] is
    set, and with the client's configured default model in place of an
    empty [Model]; the body on the wire is that request marshalled. Its
    model is therefore non-empty whenever the caller's model or the
    client's default is; the default is the model [NewClient] was
    given. *)
Theorem Chat_sends_default_model (req : ChatRequest) (s : Sent) :
  In s (calls (Chat w c ctx req)) ->
  json_Marshal w (sent_request s) = inl (RequestBody (sent_http s))
  /\ (Model req <> "" -> sent_request s = req)
  /\ (Model req = "" -> sent_request s = set_Model req (model c))
  /\ (Model req <> "" \/ model c <> "" -> Model (sent_request s) <> "")
  /\ (forall url key name opts,
        Forall packageOption opts -> c = NewClient url key name opts -> model c = name).
Proof.
  intros Hin.
  pose proof (Chat_calls req) as Hall. rewrite Forall_forall in Hall.
  apply list_elem_of_In in Hin.
  destruct (Hall s Hin) as [Hreq Hbody]. rewrite Hreq.
  destruct (withDefaultModel_cases req) as [Hset Hempty].
  repeat split.
  - exact Hbody.
  - exact Hset.
  - exact Hempty.
  - intros Hsome.
    destruct (String.eqb_spec (Model req) "") as [Hnone|Hmodel].
    + rewrite (Hempty Hnone). simpl. destruct Hsome as [Hm|Hm]; [contradiction|exact Hm].
    + rewrite (Hset Hmodel). exact Hmodel.
  - intros url key name opts Hopts ->. apply NewClient_model. exact Hopts.
Qed.

(** C7: [SimpleRequest] with an empty system prompt builds one message,
    role [user] with the user prompt; with a non-empty one it builds
    two, role [system] with the system prompt and then role [user]; these
    are the messages of every request it sends. What it returns is made
    from the result of [Chat] alone: for a result with a nil error, the
    content of the first choice, or the no-choices error when the response
    has zero choices; for a result with an error, that error. *)
Theorem SimpleRequest_messages_and_result (systemPrompt userPrompt : string) :
  (systemPrompt = "" ->
     simpleMessages systemPrompt userPrompt = [mkMessage "user" userPrompt])
  /\ (systemPrompt <> "" ->
      simpleMessages systemPrompt userPrompt =
      [mkMessage "system" systemPrompt; mkMessage "user" userPrompt])
  /\ snd (SimpleRequest w c ctx systemPrompt userPrompt) =
     Chat w c ctx (newChatRequest (simpleMessages systemPrompt userPrompt) None)
  /\ (forall s,
        In s (calls (snd (SimpleRequest w c ctx systemPrompt userPrompt))) ->
        Messages (sent_request s) = simpleMessages systemPrompt userPrompt)
  /\ fst (SimpleRequest w c ctx systemPrompt userPrompt)
     = simpleResult (returned (snd (SimpleRequest w c ctx systemPrompt userPrompt)))
  /\ (forall resp,
        Choices resp = [] ->
        simpleResult (resp, None) = ("", Some (Errorf "no choices in response" None)))
  /\ (forall resp first rest,
        Choices resp = first :: rest ->
        simpleResult (resp, None) = (Content (ChoiceMessage first), None))
  /\ (forall resp err, simpleResult (resp, Some err) = ("", Some err))
  /\ (forall resp first rest,
        returned (snd (SimpleRequest w c ctx systemPrompt userPrompt)) = (resp, None) ->
        Choices resp = first :: rest ->
        fst (SimpleRequest w c ctx systemPrompt userPrompt)
        = (Content (ChoiceMessage first), None))
  /\ (forall resp err,
        returned (snd (SimpleRequest w c ctx systemPrompt userPrompt)) = (resp, Some err) ->
        fst (SimpleRequest w c ctx systemPrompt userPrompt) = ("", Some err)).
Proof.
  split; [|split; [|split; [|split; [|split; [|split; [|split; [|split; [|split]]]]]]]].
  - intros ->. reflexivity.
  - intros Hsys. unfold simpleMessages.
    destruct (String.eqb_spec systemPrompt "") as [Hempty|_]; [contradiction|reflexivity].
  - reflexivity.
  - intros s Hin. simpl in Hin.
    pose proof (Chat_calls (newChatRequest (simpleMessages systemPrompt userPrompt) None))
      as Hall.
    rewrite Forall_forall in Hall. apply list_elem_of_In in Hin.
    destruct (Hall s Hin) as [-> _]. reflexivity.
  - reflexivity.
  - intros resp Hnone. simpl. rewrite Hnone. reflexivity.
  - intros resp first rest Hsome. simpl. rewrite Hsome. reflexivity.
  - intros resp err. reflexivity.
  - intros resp first rest Hret Hsome. unfold SimpleRequest. simpl in *.
    rewrite Hret. simpl. rewrite Hsome. reflexivity.
  - intros resp err Hret. unfold SimpleRequest. simpl in *. rewrite Hret. reflexivity.
Qed.

End ChatProperties.

Section RetryLoop.

Variable w : World.
Variable c : Client.
Variable ctx : Context.
Variable req : ChatRequest.

(** The request of the loop. *)
#[local] Abbreviation req' := (withDefaultModel c req).

(** The state at the head of a pass that [Chat] reaches, and what is
    left of [Chat] from there. *)
Lemma stateAt_reached (i : nat) (st : LoopState) :
  stateAt w c ctx req i = Some st ->
  attempt st = Z.of_nat i
  /\ Z.of_nat i <= maxRetries c
  /\ Chat w c ctx req =
     chatLoop w c ctx req' (S (Z.to_nat (maxRetries c) - i)) st
  /\ Forall (fun s => sent_attempt s < Z.of_nat i) (sent st).
Proof.
  revert st. induction i as [|i IH]; intros st Hat.
  - simpl in Hat. destruct (Z.leb_spec 0 (maxRetries c)) as [Hle|_]; [|discriminate Hat].
    injection Hat as <-. repeat split; try exact Hle.
    + unfold Chat. f_equal. rewrite Z2Nat.inj_add by lia. simpl. lia.
    + constructor.
  - simpl in Hat.
    destruct (stateAt w c ctx req i) as [st0|] eqn:Hprev; [|discriminate Hat].
    destruct (IH st0 eq_refl) as (Hattempt & _ & Hchat & Hsent).
    destruct (Z.leb_spec (Z.of_nat (S i)) (maxRetries c)) as [Hle|_]; [|discriminate Hat].
    destruct (iteration w c ctx (withDefaultModel c req) st0) as [st1|run] eqn:Hstep;
      [|discriminate Hat].
    injection Hat as <-.
    pose proof (iteration_Continue w c ctx _ st0 st1 Hstep)
      as (Hnext & woke & out & call & _ & Hdo & Hcalls).
    repeat split.
    + lia.
    + exact Hle.
    + rewrite Hchat.
      replace (S (Z.to_nat (maxRetries c) - i)) with (S (S (Z.to_nat (maxRetries c) - S i)))
        by lia.
      change (chatLoop w c ctx req' (S (S (Z.to_nat (maxRetries c) - S i))) st0)
        with (match iteration w c ctx req' st0 with
              | Return run => run
              | Continue st' =>
                  chatLoop w c ctx req' (S (Z.to_nat (maxRetries c) - S i)) st'
              end).
      rewrite Hstep. reflexivity.
    + rewrite Hcalls. apply Forall_app. split.
      * eapply Forall_impl; [exact Hsent|]. simpl. intros s Hs. lia.
      * destruct call as [s|]; [|constructor].
        apply doRequest_call in Hdo as (Hs & _). constructor; [|constructor].
        rewrite Hs, Hattempt. lia.
Qed.

(** The wait of a retry when the context is done before the timer. *)
Lemma waitBackoff_done (st : LoopState) (closed : Z) :
  0 < attempt st ->
  done_ready ctx (now st) = Some closed ->
  closed < timer_ready (now st) (backoff (float_overflow_of w) (attempt st - 1)) ->
  waitBackoff w ctx st = CtxDone.
Proof.
  intros Hretry Hdone Hfirst. unfold waitBackoff, select_Done_or_After.
  destruct (Z.ltb_spec 0 (attempt st)) as [_|Hno]; [|lia].
  rewrite Hdone.
  destruct (Z.ltb_spec closed
              (timer_ready (now st) (backoff (float_overflow_of w) (attempt st - 1))))
    as [_|Hno]; [reflexivity|lia].
Qed.

(** The wait with a context that is never done. *)
Lemma waitBackoff_live (st : LoopState) :
  Done_at ctx = None -> exists woke, waitBackoff w ctx st = TimerFired woke.
Proof.
  intros Hlive. unfold waitBackoff, select_Done_or_After, done_ready. rewrite Hlive.
  destruct (0 <? attempt st); eauto.
Qed.

(** C4: for every retry (attempt > 0) that [Chat] comes to, if the
    context is done before the backoff timer of that attempt fires,
    [Chat] returns at once with the context's own error, and its calls
    of the transport are those of the earlier attempts: no further
    network call is made. *)
Theorem Chat_cancelled_during_backoff (i : nat) (st : LoopState) (closed : Z) :
  stateAt w c ctx req i = Some st ->
  (0 < i)%nat ->
  done_ready ctx (now st) = Some closed ->
  closed < timer_ready (now st) (backoff (float_overflow_of w) (Z.of_nat i - 1)) ->
  Chat w c ctx req = mkChatRun (zeroChatResponse, Some (ctx_Err ctx)) (sent st)
  /\ Forall (fun s => sent_attempt s < Z.of_nat i) (calls (Chat w c ctx req)).
Proof.
  intros Hat Hretry Hdone Hfirst.
  destruct (stateAt_reached i st Hat) as (Hattempt & _ & Hchat & Hsent).
  assert (Hrun : Chat w c ctx req =
                 mkChatRun (zeroChatResponse, Some (ctx_Err ctx)) (sent st)).
  { rewrite Hchat. simpl. unfold iteration.
    rewrite (waitBackoff_done st closed); [reflexivity|lia|exact Hdone|].
    rewrite Hattempt. exact Hfirst. }
  split; [exact Hrun|]. rewrite Hrun. exact Hsent.
Qed.

(** C1, amended: when the network call of an attempt fails because the
    caller's context is cancelled or timed out, the failure is classed
    as retryable like any other transport error and no further network
    call is made: with retry budget left (and a positive backoff, as for
    every attempt up to 33) [Chat] returns the context's own error at
    the wait before the next attempt; after the last attempt of the
    budget it returns the max-retries error that wraps the error of the
    call. *)
Theorem Chat_cancelled_during_call (i : nat) (st : LoopState) (woke back closed : Z)
    (err : error) (call : option Sent) :
  stateAt w c ctx req i = Some st ->
  waitBackoff w ctx st = TimerFired woke ->
  doRequest w c (attempt st) woke (withDefaultModel c req) = (inr err, back, call) ->
  is_context_error err = true ->
  Done_at ctx = Some closed ->
  closed <= back ->
  shouldRetry (Some err) None = true
  /\ (Z.of_nat i < maxRetries c ->
      0 < backoff (float_overflow_of w) (Z.of_nat i) ->
      Chat w c ctx req =
      mkChatRun (zeroChatResponse, Some (ctx_Err ctx))
        (sent st ++ match call with Some s => [s] | None => [] end))
  /\ (Z.of_nat i = maxRetries c ->
      maxRetries c < int64_max ->
      Chat w c ctx req =
      mkChatRun (zeroChatResponse, Some (maxRetriesExceeded (Some err)))
        (sent st ++ match call with Some s => [s] | None => [] end)).
Proof.
  intros Hat Hwait Hdo _ Hclosed Hback.
  destruct (stateAt_reached i st Hat) as (Hattempt & _ & Hchat & _).
  assert (Hstep : iteration w c ctx req' st =
                  Continue (mkLoopState (attempt st + 1) back (Some err)
                              (sent st ++ match call with Some s => [s] | None => [] end))).
  { unfold iteration. rewrite Hwait, Hdo. reflexivity. }
  split; [reflexivity|]. split.
  - intros Hbudget Hpositive. rewrite Hchat.
    replace (S (Z.to_nat (maxRetries c) - i)) with (S (S (Z.to_nat (maxRetries c) - S i)))
      by lia.
    simpl. rewrite Hstep. unfold iteration at 1.
    rewrite (waitBackoff_done _ back); [reflexivity| | |]; simpl.
    + lia.
    + unfold done_ready. rewrite Hclosed. f_equal. lia.
    + unfold timer_ready.
      replace (attempt st + 1 - 1) with (Z.of_nat i) by lia. lia.
  - intros Hlast _. rewrite Hchat.
    replace (Z.to_nat (maxRetries c) - i)%nat with 0%nat by lia.
    simpl. rewrite Hstep. reflexivity.
Qed.

End RetryLoop.

Section Budget.

Variable w : World.
Variable c : Client.
Variable ctx : Context.

(** A pass whose wait completes and whose attempt yields 429 or 5xx
    goes on to the next one, one call of the transport later, with that
    status recorded. *)
Lemma iteration_retryable (req : ChatRequest) (st : LoopState) (woke : Z) :
  waitBackoff w ctx st = TimerFired woke ->
  yieldsRetryable w c req (attempt st) ->
  exists resp back s,
    doRequest w c (attempt st) woke req = (inl resp, back, Some s)
    /\ (StatusCode resp = 429 \/ 500 <= StatusCode resp <= 599)
    /\ iteration w c ctx req st =
       Continue (mkLoopState (attempt st + 1) back
                   (Some (httpStatusError (StatusCode resp))) (sent st ++ [s])).
Proof.
  intros Hwait Hyields.
  destruct (Hyields woke) as (resp & back & call & Hdo & Hstatus).
  destruct (doRequest_response w c _ _ _ _ _ _ Hdo) as [s ->].
  exists resp, back, s. repeat split; try exact Hdo; try exact Hstatus.
  unfold iteration. rewrite Hwait, Hdo.
  replace (shouldRetry None (Some resp)) with true; [reflexivity|].
  symmetry. apply shouldRetry_status. lia.
Qed.

(** A pass whose wait completes and whose attempt yields 200 with a
    body that decodes to a response with choices returns it. *)
Lemma iteration_success (req : ChatRequest) (st : LoopState) (woke : Z)
    (result : ChatResponse) :
  waitBackoff w ctx st = TimerFired woke ->
  yieldsSuccess w c req (attempt st) result ->
  Choices result <> [] ->
  exists s, iteration w c ctx req st = Return (mkChatRun (result, None) (sent st ++ [s])).
Proof.
  intros Hwait Hyields Hchoices.
  destruct (Hyields woke) as (body & back & call & Hdo & Hdecode).
  destruct (doRequest_response w c _ _ _ _ _ _ Hdo) as [s ->].
  exists s. unfold iteration. rewrite Hwait, Hdo. simpl.
  rewrite (parseResponse_success w body result Hdecode Hchoices). reflexivity.
Qed.

(** A context that is never done cuts no wait short. *)
Lemma live_waitsComplete (req : ChatRequest) :
  Done_at ctx = None -> waitsComplete w c ctx req.
Proof. intros Hlive i st _. apply waitBackoff_live. exact Hlive. Qed.

Variable req : ChatRequest.

Hypothesis waits_complete : waitsComplete w c ctx req.

(** After [k] attempts that yield 429 or 5xx, [Chat] is at the head of
    pass [k], [k] calls of the transport later. *)
Lemma stateAt_after_retries (k : nat) :
  Z.of_nat k <= maxRetries c ->
  (forall j, 0 <= j < Z.of_nat k -> yieldsRetryable w c (withDefaultModel c req) j) ->
  exists st, stateAt w c ctx req k = Some st /\ List.length (sent st) = k.
Proof.
  induction k as [|k IH]; intros Hk Hretry.
  - exists (initialState w). simpl.
    destruct (Z.leb_spec 0 (maxRetries c)) as [_|Hneg]; [split; reflexivity | lia].
  - destruct IH as (st & Hat & Hlen); [lia | intros j Hj; apply Hretry; lia |].
    destruct (stateAt_reached w c ctx req k st Hat) as (Hattempt & _).
    destruct (waits_complete k st Hat) as [woke Hwait].
    destruct (iteration_retryable (withDefaultModel c req) st woke Hwait)
      as (resp & back & s & _ & _ & Hstep).
    { rewrite Hattempt. apply Hretry. lia. }
    eexists. simpl stateAt. rewrite Hat.
    destruct (Z.leb_spec (Z.of_nat (S k)) (maxRetries c)) as [_|Hgt]; [|lia].
    rewrite Hstep. split; [reflexivity|].
    simpl. rewrite length_app, Hlen. simpl. lia.
Qed.

Lemma Chat_retry_then_success (k : nat) (result : ChatResponse) :
  Z.of_nat k <= maxRetries c ->
  (forall j, 0 <= j < Z.of_nat k -> yieldsRetryable w c (withDefaultModel c req) j) ->
  yieldsSuccess w c (withDefaultModel c req) (Z.of_nat k) result ->
  Choices result <> [] ->
  returned (Chat w c ctx req) = (result, None)
  /\ List.length (calls (Chat w c ctx req)) = S k.
Proof.
  intros Hk Hretry Hok Hchoices.
  destruct (stateAt_after_retries k Hk Hretry) as (st & Hat & Hlen).
  destruct (stateAt_reached w c ctx req k st Hat) as (Hattempt & _ & Hchat & _).
  destruct (waits_complete k st Hat) as [woke Hwait].
  destruct (iteration_success (withDefaultModel c req) st woke result Hwait)
    as [s Hstep]; [rewrite Hattempt; exact Hok | exact Hchoices |].
  rewrite Hchat. simpl. rewrite Hstep. simpl.
  split; [reflexivity|]. rewrite length_app, Hlen. simpl. lia.
Qed.

Lemma Chat_exhausted (M : Z) :
  maxRetries c = M ->
  0 <= M ->
  (forall j, 0 <= j <= M -> yieldsRetryable w c (withDefaultModel c req) j) ->
  exists woke resp back call,
    doRequest w c M woke (withDefaultModel c req) = (inl resp, back, call)
    /\ (StatusCode resp = 429 \/ 500 <= StatusCode resp <= 599)
    /\ returned (Chat w c ctx req)
       = (zeroChatResponse,
          Some (maxRetriesExceeded (Some (httpStatusError (StatusCode resp)))))
    /\ Z.of_nat (List.length (calls (Chat w c ctx req))) = M + 1.
Proof.
  intros HM Hpos Hretry.
  destruct (stateAt_after_retries (Z.to_nat M)) as (st & Hat & Hlen);
    [lia | intros j Hj; apply Hretry; lia |].
  destruct (stateAt_reached w c ctx req _ st Hat) as (Hattempt & _ & Hchat & _).
  destruct (waits_complete _ st Hat) as [woke Hwait].
  destruct (iteration_retryable (withDefaultModel c req) st woke Hwait)
    as (resp & back & s & Hdo & Hstatus & Hstep).
  { rewrite Hattempt. apply Hretry. lia. }
  exists woke, resp, back, (Some s).
  rewrite Hattempt, Z2Nat.id in Hdo by lia.
  split; [exact Hdo|]. split; [exact Hstatus|].
  rewrite Hchat. replace (Z.to_nat (maxRetries c) - Z.to_nat M)%nat with 0%nat by lia.
  simpl. rewrite Hstep. simpl. split; [reflexivity|].
  rewrite length_app, Hlen. simpl. lia.
Qed.

End Budget.

(** C2: for every [k <= maxRetries], if the first [k] attempts yield 429
    or 5xx and the next one yields 200 with a body that decodes to a
    response with choices, [Chat] returns that response after exactly
    [k + 1] calls of the transport; and if every attempt yields 429 or
    5xx, with retry budget [M], [Chat] makes exactly [M + 1] calls and
    returns the max-retries error that wraps the status error of the last
    attempt. The attempts are those of a run whose backoff waits the
    context lets complete. *)
Theorem Chat_retries_within_budget (w : World) (c : Client) (ctx : Context)
    (req : ChatRequest) :
  waitsComplete w c ctx req ->
  (forall (k : nat) (result : ChatResponse),
     Z.of_nat k <= maxRetries c ->
     (forall j, 0 <= j < Z.of_nat k -> yieldsRetryable w c (withDefaultModel c req) j) ->
     yieldsSuccess w c (withDefaultModel c req) (Z.of_nat k) result ->
     Choices result <> [] ->
     returned (Chat w c ctx req) = (result, None)
     /\ List.length (calls (Chat w c ctx req)) = S k)
  /\ (forall M : Z,
        maxRetries c = M ->
        0 <= M < int64_max ->
        (forall j, 0 <= j <= M -> yieldsRetryable w c (withDefaultModel c req) j) ->
        exists woke resp back call,
          doRequest w c M woke (withDefaultModel c req) = (inl resp, back, call)
          /\ returned (Chat w c ctx req)
             = (zeroChatResponse,
                Some (maxRetriesExceeded (Some (httpStatusError (StatusCode resp)))))
          /\ Unwrap (maxRetriesExceeded (Some (httpStatusError (StatusCode resp))))
             = Some (httpStatusError (StatusCode resp))
          /\ Z.of_nat (List.length (calls (Chat w c ctx req))) = M + 1).
Proof.
  intros Hwaits. split.
  - intros k result. apply Chat_retry_then_success. exact Hwaits.
  - intros M HM Hrange Hretry.
    destruct (Chat_exhausted w c ctx req Hwaits M HM) as
      (woke & resp & back & call & Hdo & _ & Hret & Hlen); [lia | exact Hretry |].
    exists woke, resp, back, call.
    split; [exact Hdo|]. split; [exact Hret|]. split; [reflexivity | exact Hlen].
Qed.

(* ================================================================== *)
(** * The properties on the scripted server *)
(* ================================================================== *)

(** C1, the claim as stated fails: with no retry budget, a call that the
    caller's deadline interrupts makes [Chat] return the max-retries
    error, a wrapper around the error of the call, and not the
    cancellation error itself. *)
Lemma Chat_wraps_cancellation :
  Chat (scriptedWorld ms50 timeoutScript) (testClient [WithMaxRetries 0])
    timeoutContext helloRequest
  = mkChatRun (zeroChatResponse, Some (maxRetriesExceeded (Some timeoutError))) [helloSent]
  /\ is_context_error timeoutError = true
  /\ Unwrap (maxRetriesExceeded (Some timeoutError)) = Some timeoutError
  /\ maxRetriesExceeded (Some timeoutError) <> ctx_Err timeoutContext.
Proof.
  split; [vm_compute; reflexivity|]. split; [reflexivity|]. split; [reflexivity|].
  discriminate.
Qed.

Lemma Chat_cancelled_during_call_witness :
  Chat (scriptedWorld ms50 timeoutScript) (testClient []) timeoutContext helloRequest
  = mkChatRun (zeroChatResponse, Some DeadlineExceeded) [helloSent].
Proof.
  pose proof (Chat_cancelled_during_call (scriptedWorld ms50 timeoutScript) (testClient [])
                timeoutContext helloRequest 0
                (initialState (scriptedWorld ms50 timeoutScript))
                0 ms50 ms50 timeoutError (Some helloSent)) as H.
  destruct H as (_ & Hbudget & _).
  - reflexivity.
  - reflexivity.
  - reflexivity.
  - reflexivity.
  - reflexivity.
  - unfold ms50. lia.
  - apply Hbudget.
    + simpl. lia.
    + vm_compute. reflexivity.
Defined.

Lemma Chat_retries_within_budget_witness :
  (returned (Chat (scriptedWorld ms100 retryScript) (testClient []) Background helloRequest)
   = (sampleResponse, None)
   /\ List.length (calls (Chat (scriptedWorld ms100 retryScript) (testClient [])
                            Background helloRequest)) = 3%nat)
  /\ exists woke resp back call,
       doRequest (scriptedWorld ms100 failingScript) (testClient [WithMaxRetries 2]) 2 woke
         (withDefaultModel (testClient [WithMaxRetries 2]) helloRequest)
       = (inl resp, back, call)
       /\ returned (Chat (scriptedWorld ms100 failingScript) (testClient [WithMaxRetries 2])
                      Background helloRequest)
          = (zeroChatResponse,
             Some (maxRetriesExceeded (Some (httpStatusError (StatusCode resp)))))
       /\ Unwrap (maxRetriesExceeded (Some (httpStatusError (StatusCode resp))))
          = Some (httpStatusError (StatusCode resp))
       /\ Z.of_nat (List.length (calls (Chat (scriptedWorld ms100 failingScript)
                                          (testClient [WithMaxRetries 2])
                                          Background helloRequest))) = 2 + 1.
Proof.
  split.
  - apply (proj1 (Chat_retries_within_budget (scriptedWorld ms100 retryScript)
                    (testClient []) Background helloRequest
                    (live_waitsComplete (scriptedWorld ms100 retryScript) (testClient [])
                       Background helloRequest eq_refl)) 2%nat sampleResponse).
    + simpl. lia.
    + intros j Hj t.
      assert (Hcases : j = 0 \/ j = 1) by lia.
      destruct Hcases as [-> | ->]; eexists _, _, _; (split; [reflexivity|]);
        left; reflexivity.
    + intros t. eexists _, _, _. split; reflexivity.
    + discriminate.
  - apply (proj2 (Chat_retries_within_budget (scriptedWorld ms100 failingScript)
                    (testClient [WithMaxRetries 2]) Background helloRequest
                    (live_waitsComplete (scriptedWorld ms100 failingScript)
                       (testClient [WithMaxRetries 2]) Background helloRequest eq_refl)) 2).
    + reflexivity.
    + unfold int64_max. lia.
    + intros j Hj t. eexists _, _, _. split; [reflexivity|].
      right. simpl. lia.
Defined.

Lemma Chat_cancelled_during_backoff_witness :
  Chat (scriptedWorld ms100 failingScript) (testClient []) cancelledContext helloRequest
  = mkChatRun (zeroChatResponse, Some Canceled) [helloSent]
  /\ Forall (fun s => sent_attempt s < 1)
       (calls (Chat (scriptedWorld ms100 failingScript) (testClient [])
                 cancelledContext helloRequest)).
Proof.
  apply (Chat_cancelled_during_backoff (scriptedWorld ms100 failingScript) (testClient [])
           cancelledContext helloRequest 1
           (mkLoopState 1 ms100 (Some (httpStatusError 500)) [helloSent])
           (5 * ms100)).
  - vm_compute. reflexivity.
  - lia.
  - reflexivity.
  - vm_compute. reflexivity.
Defined.

(** C5, the claim as stated fails: a client configured with an empty
    default model sends a request without a model as it is, with an empty
    model field, on each of its attempts. *)
Lemma Chat_sends_empty_model :
  map (fun s => Model (sent_request s))
    (calls (Chat (scriptedWorld ms100 retryScript)
              (NewClient "http://127.0.0.1/v1" "test-key" "" [])
              Background plainRequest))
  = [""; ""; ""].
Proof. vm_compute. reflexivity. Qed.

Lemma Chat_sends_default_model_witness :
  json_Marshal (scriptedWorld ms100 retryScript) (sent_request plainSent)
  = inl (RequestBody (sent_http plainSent))
  /\ (Model plainRequest <> "" -> sent_request plainSent = plainRequest)
  /\ (Model plainRequest = "" ->
      sent_request plainSent = set_Model plainRequest (model (testClient [])))
  /\ (Model plainRequest <> "" \/ model (testClient []) <> "" ->
      Model (sent_request plainSent) <> "")
  /\ (forall url key name opts,
        Forall packageOption opts -> testClient [] = NewClient url key name opts ->
        model (testClient []) = name).
Proof.
  apply (Chat_sends_default_model (scriptedWorld ms100 retryScript) (testClient [])
           Background plainRequest plainSent).
  vm_compute. left. reflexivity.
Defined.

Lemma parseResponse_cases_witness :
  parseResponse (scriptedWorld ms100 retryScript) (mkResponse 404 "not found")
  = (zeroChatResponse, Some (Errorf "API error: status 404, body: not found" None))
  /\ parseResponse (scriptedWorld ms100 retryScript) (mkResponse 200 "{")
     = (zeroChatResponse,
        Some (Errorf "failed to decode response: unexpected end of JSON input"
                (Some (LibError "unexpected end of JSON input" None))))
  /\ parseResponse (scriptedWorld ms100 retryScript) (mkResponse 200 "no choices")
     = (zeroChatResponse, Some (Errorf "no choices in response" None))
  /\ parseResponse (scriptedWorld ms100 retryScript) (mkResponse 200 "one choice")
     = (sampleResponse, None).
Proof.
  split; [|split; [|split]].
  - apply (proj1 (parseResponse_cases (scriptedWorld ms100 retryScript)
                    (mkResponse 404 "not found"))).
    discriminate.
  - exact (proj1 (proj2 (parseResponse_cases (scriptedWorld ms100 retryScript)
                           (mkResponse 200 "{")))
             eq_refl zeroChatResponse (LibError "unexpected end of JSON input" None)
             eq_refl).
  - apply (proj1 (proj2 (proj2 (parseResponse_cases (scriptedWorld ms100 retryScript)
                                  (mkResponse 200 "no choices"))))); reflexivity.
  - apply (proj1 (proj2 (proj2 (proj2 (parseResponse_cases (scriptedWorld ms100 retryScript)
                                         (mkResponse 200 "one choice"))))));
      [reflexivity | reflexivity | discriminate].
Defined.

Lemma SimpleRequest_messages_and_result_witness :
  simpleMessages "" "Hello" = [mkMessage "user" "Hello"]
  /\ simpleMessages "You are a helpful assistant." "Hello"
     = [mkMessage "system" "You are a helpful assistant."; mkMessage "user" "Hello"]
  /\ fst (SimpleRequest (scriptedWorld ms100 retryScript) (testClient []) Background
            "You are a helpful assistant." "Hello")
     = ("Success after retry", None)
  /\ simpleResult (zeroChatResponse, None)
     = ("", Some (Errorf "no choices in response" None)).
Proof.
  pose proof (SimpleRequest_messages_and_result (scriptedWorld ms100 retryScript)
                (testClient []) Background "" "Hello") as Hplain.
  pose proof (SimpleRequest_messages_and_result (scriptedWorld ms100 retryScript)
                (testClient []) Background "You are a helpful assistant." "Hello")
    as Hsystem.
  split; [|split; [|split]].
  - apply (proj1 Hplain). reflexivity.
  - apply (proj1 (proj2 Hsystem)). discriminate.
  - destruct Hsystem as (_ & _ & _ & _ & _ & _ & _ & _ & Hfirst & _).
    apply (Hfirst sampleResponse
             (mkChoice (mkMessage "assistant" "Success after retry") "stop") []).
    + vm_compute. reflexivity.
    + reflexivity.
  - destruct Hplain as (_ & _ & _ & _ & _ & Hnone & _).
    apply (Hnone zeroChatResponse). reflexivity.
Defined.

(* ================================================================== *)
(** * Further properties of the client *)
(* ================================================================== *)

Section Calls.

Variable w : World.
Variable c : Client.
Variable ctx : Context.
Variable req : ChatRequest.

(** What [doRequest] hands to the transport. *)
Lemma doRequest_http (i t : Z) (out : Response + error) (back : Z) (s : Sent) :
  doRequest w c i t req = (out, back, Some s) ->
  Method (sent_http s) = "POST"
  /\ URL (sent_http s) = baseURL c +:+ "/chat/completions"
  /\ Header (sent_http s) =
     [("Content-Type", "application/json"); ("Authorization", "Bearer " +:+ apiKey c)]
  /\ json_Marshal w req = inl (RequestBody (sent_http s))
  /\ http_NewRequest w "POST" (baseURL c +:+ "/chat/completions") = None
  /\ sent_attempt s = i.
Proof.
  unfold doRequest. intros Hdo.
  destruct (json_Marshal w req) as [jsonData|err]; [|discriminate Hdo].
  destruct (http_NewRequest w "POST" _) as [err|] eqn:Hnew; [discriminate Hdo|].
  destruct (http_Do w _ _ _ _) as [out' back'].
  injection Hdo as _ _ <-. simpl. auto 6.
Qed.

(** A property of every call [doRequest] makes holds of every call of
    the loop. *)
Lemma chatLoop_calls_Forall (P : Sent -> Prop) (passes : nat) (st : LoopState) :
  (forall i t out back s, doRequest w c i t req = (out, back, Some s) -> P s) ->
  Forall P (sent st) ->
  Forall P (calls (chatLoop w c ctx req passes st)).
Proof.
  intros Hcall. revert st. induction passes as [|passes IH]; intros st Hsent; simpl.
  - exact Hsent.
  - destruct (iteration w c ctx req st) as [st'|run] eqn:Hstep.
    + apply IH. apply iteration_Continue in Hstep as [_ (woke & out & call & _ & Hdo & ->)].
      apply Forall_app. split; [exact Hsent|].
      destruct call as [s|]; [|constructor].
      constructor; [eapply Hcall; exact Hdo | constructor].
    + apply iteration_Return in Hstep as [->|(woke & out & back & s & Hdo & ->)].
      * exact Hsent.
      * apply Forall_app. split; [exact Hsent|].
        constructor; [eapply Hcall; exact Hdo | constructor].
Qed.

(** The calls the loop adds: at most one for each pass, in the order of
    the attempts. *)
Lemma chatLoop_calls_sorted (passes : nat) (st : LoopState) :
  exists added,
    calls (chatLoop w c ctx req passes st) = sent st ++ added
    /\ (List.length added <= passes)%nat
    /\ Forall (fun s => attempt st <= sent_attempt s < attempt st + Z.of_nat passes) added
    /\ StronglySorted Z.lt (map sent_attempt added).
Proof.
  revert st. induction passes as [|passes IH]; intros st; simpl chatLoop.
  - exists []. rewrite app_nil_r. repeat split; constructor.
  - destruct (iteration w c ctx req st) as [st'|run] eqn:Hstep.
    + apply iteration_Continue in Hstep as [Hnext (woke & out & call & _ & Hdo & Hsent)].
      destruct (IH st') as (added & -> & Hlen & Hrange & Hsorted).
      rewrite Hsent, Hnext in *. rewrite <- app_assoc.
      eexists. split; [reflexivity|].
      destruct call as [s|]; simpl.
      * apply doRequest_http in Hdo as (_ & _ & _ & _ & _ & Hs).
        split; [lia|]. split.
        -- constructor; [lia|]. eapply Forall_impl; [exact Hrange|].
           simpl. intros s' Hs'. lia.
        -- constructor; [exact Hsorted|].
           apply Forall_map. eapply Forall_impl; [exact Hrange|].
           simpl. intros s' Hs'. lia.
      * split; [lia|]. split; [|exact Hsorted].
        eapply Forall_impl; [exact Hrange|]. simpl. intros s' Hs'. lia.
    + apply iteration_Return in Hstep as [->|(woke & out & back & s & Hdo & ->)].
      * exists []. rewrite app_nil_r. repeat split; try constructor. simpl. lia.
      * exists [s]. apply doRequest_http in Hdo as (_ & _ & _ & _ & _ & Hs).
        repeat split; simpl; try lia.
        -- constructor; [lia | constructor].
        -- repeat constructor.
Qed.

(** A pass whose attempt fails goes on to the next one, with the error
    recorded. *)
Lemma iteration_error (st : LoopState) (woke back : Z) (err : error)
    (call : option Sent) :
  waitBackoff w ctx st = TimerFired woke ->
  doRequest w c (attempt st) woke req = (inr err, back, call) ->
  iteration w c ctx req st =
  Continue (mkLoopState (attempt st + 1) back (Some err)
              (sent st ++ match call with Some s => [s] | None => [] end)).
Proof. intros Hwait Hdo. unfold iteration. rewrite Hwait, Hdo. reflexivity. Qed.

(** A pass that returns a nil error returns what [parseResponse] made of
    a response, after the call that brought it. *)
Lemma iteration_Return_success (st : LoopState) (run : ChatRun) (resp : ChatResponse) :
  iteration w c ctx req st = Return run ->
  returned run = (resp, None) ->
  exists apiResp s,
    parseResponse w apiResp = (resp, None) /\ calls run = sent st ++ [s].
Proof.
  unfold iteration. intros Hstep Hret.
  destruct (waitBackoff w ctx st) as [|woke].
  { injection Hstep as <-. discriminate Hret. }
  destruct (doRequest w c (attempt st) woke req) as [[out back] call] eqn:Hdo.
  destruct out as [apiResp|err]; [|discriminate Hstep].
  destruct (negb (shouldRetry None (Some apiResp))); [|discriminate Hstep].
  injection Hstep as <-. simpl in *.
  destruct (doRequest_response w c _ _ _ _ _ _ Hdo) as [s ->].
  exists apiResp, s. split; [exact Hret | reflexivity].
Qed.

Lemma chatLoop_success (passes : nat) (st : LoopState) (resp : ChatResponse) :
  returned (chatLoop w c ctx req passes st) = (resp, None) ->
  exists apiResp,
    parseResponse w apiResp = (resp, None)
    /\ calls (chatLoop w c ctx req passes st) <> [].
Proof.
  revert st. induction passes as [|passes IH]; intros st Hret; simpl in *.
  - discriminate Hret.
  - destruct (iteration w c ctx req st) as [st'|run] eqn:Hstep.
    + apply IH. exact Hret.
    + destruct (iteration_Return_success st run resp Hstep Hret)
        as (apiResp & s & Hparse & ->).
      exists apiResp. split; [exact Hparse|].
      intros Hnil. apply app_eq_nil in Hnil as [_ Hnil]. discriminate Hnil.
Qed.

End Calls.

(** What stands behind a nil error of [parseResponse]. *)
Lemma parseResponse_nil_error (w : World) (apiResp : Response) (resp : ChatResponse) :
  parseResponse w apiResp = (resp, None) ->
  StatusCode apiResp = 200
  /\ json_Decode w (Body apiResp) = (resp, None)
  /\ exists first rest, Choices resp = first :: rest.
Proof.
  unfold parseResponse. intros Hparse.
  destruct (Z.eqb_spec (StatusCode apiResp) 200) as [Hstatus|_]; [|discriminate Hparse].
  simpl in Hparse.
  destruct (json_Decode w (Body apiResp)) as [decoded [e|]]; [discriminate Hparse|].
  destruct (Choices decoded) as [|first rest] eqn:Hchoices; [discriminate Hparse|].
  simpl in Hparse. injection Hparse as <-.
  repeat split; [exact Hstatus|]. exists first, rest. exact Hchoices.
Qed.

Lemma Chat_nil_error (w : World) (c : Client) (ctx : Context) (req : ChatRequest)
    (resp : ChatResponse) :
  returned (Chat w c ctx req) = (resp, None) ->
  (exists apiResp,
     StatusCode apiResp = 200 /\ json_Decode w (Body apiResp) = (resp, None))
  /\ (exists first rest, Choices resp = first :: rest)
  /\ calls (Chat w c ctx req) <> [].
Proof.
  intros Hret. unfold Chat in *.
  destruct (chatLoop_success w c ctx _ _ _ resp Hret) as (apiResp & Hparse & Hcalls).
  apply parseResponse_nil_error in Hparse as (Hstatus & Hdecode & Hchoices).
  split; [exists apiResp; split; assumption|]. split; assumption.
Qed.

Section Outcomes.

Variable w : World.
Variable c : Client.
Variable ctx : Context.
Variable req : ChatRequest.

(** X1: a response whose status is neither 429 nor 500 or above ends
    the loop whatever budget is left: at any pass [Chat] comes to, it
    returns what [parseResponse] makes of that response (the status-and-body
    error for a status other than 200, the decode or no-choices error, or
    the response), and the call of that attempt is its last. *)
Theorem Chat_returns_terminal_response (i : nat) (st : LoopState) (woke back : Z)
    (resp : Response) (call : option Sent) :
  stateAt w c ctx req i = Some st ->
  waitBackoff w ctx st = TimerFired woke ->
  doRequest w c (attempt st) woke (withDefaultModel c req) = (inl resp, back, call) ->
  StatusCode resp < 500 ->
  StatusCode resp <> 429 ->
  Chat w c ctx req =
  mkChatRun (parseResponse w resp)
    (sent st ++ match call with Some s => [s] | None => [] end).
Proof.
  intros Hat Hwait Hdo Hlow Hrate.
  destruct (stateAt_reached w c ctx req i st Hat) as (_ & _ & Hchat & _).
  rewrite Hchat. simpl. unfold iteration. rewrite Hwait, Hdo.
  replace (shouldRetry None (Some resp)) with false; [reflexivity|].
  symmetry. apply not_true_is_false. rewrite shouldRetry_status. lia.
Qed.

(** X2: [Chat] returns a nil error only with a response decoded from a
    200 body, with at least one choice, and after at least one call of
    the transport. *)
Theorem Chat_success_has_choice (resp : ChatResponse) :
  returned (Chat w c ctx req) = (resp, None) ->
  (1 <= List.length (Choices resp))%nat
  /\ (exists apiResp,
        StatusCode apiResp = 200 /\ json_Decode w (Body apiResp) = (resp, None))
  /\ (1 <= List.length (calls (Chat w c ctx req)))%nat.
Proof.
  intros Hret.
  destruct (Chat_nil_error w c ctx req resp Hret) as (Hbody & (first & rest & Hchoices) & Hcalls).
  split; [rewrite Hchoices; simpl; lia|]. split; [exact Hbody|].
  destruct (calls (Chat w c ctx req)); [contradiction | simpl; lia].
Qed.

(** X3: whatever the transport and the context do, [Chat] calls the
    transport at most [maxRetries + 1] times, at most once for each
    attempt, in the order of the attempts [0, ..., maxRetries]. *)
Theorem Chat_calls_bounded :
  (List.length (calls (Chat w c ctx req)) <= Z.to_nat (maxRetries c + 1))%nat
  /\ Forall (fun s => 0 <= sent_attempt s <= maxRetries c) (calls (Chat w c ctx req))
  /\ StronglySorted Z.lt (map sent_attempt (calls (Chat w c ctx req))).
Proof.
  unfold Chat.
  destruct (chatLoop_calls_sorted w c ctx (withDefaultModel c req)
              (Z.to_nat (maxRetries c + 1)) (initialState w))
    as (added & -> & Hlen & Hrange & Hsorted).
  simpl. split; [exact Hlen|]. split; [|exact Hsorted].
  eapply Forall_impl; [exact Hrange|]. simpl. intros s Hs. lia.
Qed.

(** X4: with a negative retry budget, which [WithMaxRetries] accepts,
    [Chat] makes no attempt at all: it returns the max-retries error at
    once, with no cause to wrap. *)
Theorem Chat_negative_budget :
  maxRetries c < 0 ->
  Chat w c ctx req =
  mkChatRun (zeroChatResponse, Some (Errorf "max retries exceeded: %!w(<nil>)" None)) [].
Proof.
  intros Hneg. unfold Chat.
  replace (Z.to_nat (maxRetries c + 1)) with 0%nat by lia. reflexivity.
Qed.

(** X5: every call of the transport is a POST to the base URL followed
    by [/chat/completions], with the JSON content type and the bearer
    credential as its two headers, and the marshalled request as its
    body. *)
Theorem Chat_wire_format (s : Sent) :
  In s (calls (Chat w c ctx req)) ->
  Method (sent_http s) = "POST"
  /\ URL (sent_http s) = baseURL c +:+ "/chat/completions"
  /\ Header (sent_http s) =
     [("Content-Type", "application/json"); ("Authorization", "Bearer " +:+ apiKey c)]
  /\ json_Marshal w (withDefaultModel c req) = inl (RequestBody (sent_http s)).
Proof.
  intros Hin. apply list_elem_of_In in Hin.
  assert (Hall : Forall (fun s =>
                   Method (sent_http s) = "POST"
                   /\ URL (sent_http s) = baseURL c +:+ "/chat/completions"
                   /\ Header (sent_http s) =
                      [("Content-Type", "application/json");
                       ("Authorization", "Bearer " +:+ apiKey c)]
                   /\ json_Marshal w (withDefaultModel c req)
                      = inl (RequestBody (sent_http s)))
                 (calls (Chat w c ctx req))).
  { unfold Chat. apply chatLoop_calls_Forall; [|constructor].
    intros i t out back s' Hdo.
    apply doRequest_http in Hdo as (Hm & Hu & Hh & Hb & _). auto. }
  rewrite Forall_forall in Hall. exact (Hall s Hin).
Qed.

(** With waits that complete, after [k] attempts that fail [Chat] is at
    the head of pass [k]. *)
Lemma stateAt_after_errors (k : nat) :
  waitsComplete w c ctx req ->
  Z.of_nat k <= maxRetries c ->
  (forall j, 0 <= j < Z.of_nat k -> yieldsError w c (withDefaultModel c req) j) ->
  exists st, stateAt w c ctx req k = Some st.
Proof.
  intros Hwaits. induction k as [|k IH]; intros Hk Hfail.
  - exists (initialState w). simpl.
    destruct (Z.leb_spec 0 (maxRetries c)) as [_|Hneg]; [reflexivity | lia].
  - destruct IH as (st & Hat); [lia | intros j Hj; apply Hfail; lia |].
    destruct (stateAt_reached w c ctx req k st Hat) as (Hattempt & _).
    destruct (Hwaits k st Hat) as [woke Hwait].
    destruct (Hfail (Z.of_nat k) ltac:(lia) woke) as (err & back & call & Hdo).
    rewrite <- Hattempt in Hdo.
    eexists. simpl stateAt. rewrite Hat.
    destruct (Z.leb_spec (Z.of_nat (S k)) (maxRetries c)) as [_|Hgt]; [|lia].
    rewrite (iteration_error w c ctx _ st woke back err call Hwait Hdo). reflexivity.
Qed.

Lemma Chat_all_errors (M : Z) :
  waitsComplete w c ctx req ->
  maxRetries c = M ->
  0 <= M ->
  (forall j, 0 <= j <= M -> yieldsError w c (withDefaultModel c req) j) ->
  exists woke err back call,
    doRequest w c M woke (withDefaultModel c req) = (inr err, back, call)
    /\ returned (Chat w c ctx req)
       = (zeroChatResponse, Some (maxRetriesExceeded (Some err))).
Proof.
  intros Hwaits HM Hpos Hfail.
  destruct (stateAt_after_errors (Z.to_nat M) Hwaits) as (st & Hat);
    [lia | intros j Hj; apply Hfail; lia |].
  destruct (stateAt_reached w c ctx req _ st Hat) as (Hattempt & _ & Hchat & _).
  destruct (Hwaits _ st Hat) as [woke Hwait].
  destruct (Hfail M ltac:(lia) woke) as (err & back & call & Hdo).
  exists woke, err, back, call. split; [exact Hdo|].
  rewrite Hchat. replace (Z.to_nat (maxRetries c) - Z.to_nat M)%nat with 0%nat by lia.
  simpl.
  rewrite (iteration_error w c ctx _ st woke back err call Hwait); [reflexivity|].
  rewrite Hattempt, Z2Nat.id by lia. exact Hdo.
Qed.

Lemma doRequest_unbuildable (err : error) (i t : Z) :
  unbuildable w c (withDefaultModel c req) err ->
  doRequest w c i t (withDefaultModel c req) = (inr err, t, None).
Proof.
  unfold doRequest. intros [(e & Hmarshal & ->)|(data & e & Hmarshal & Hnew & ->)].
  - rewrite Hmarshal. reflexivity.
  - rewrite Hmarshal, Hnew. reflexivity.
Qed.

(** X6: a request that cannot be built ([json.Marshal] or
    [http.NewRequestWithContext] fails) never reaches the transport, and
    the failure is retried like a network error: through waits that
    complete, [Chat] uses up its budget and returns the max-retries error
    that wraps the build error. *)
Theorem Chat_unbuildable_request (err : error) :
  unbuildable w c (withDefaultModel c req) err ->
  calls (Chat w c ctx req) = []
  /\ (waitsComplete w c ctx req ->
      0 <= maxRetries c < int64_max ->
      returned (Chat w c ctx req)
      = (zeroChatResponse, Some (maxRetriesExceeded (Some err)))).
Proof.
  intros Hbuild. split.
  - assert (Hall : Forall (fun _ => False) (calls (Chat w c ctx req))).
    { unfold Chat. apply chatLoop_calls_Forall; [|constructor].
      intros i t out back s Hdo.
      rewrite (doRequest_unbuildable err i t Hbuild) in Hdo. discriminate Hdo. }
    destruct (calls (Chat w c ctx req)) as [|s rest]; [reflexivity|].
    inversion Hall as [|? ? Hfalse _]. contradiction.
  - intros Hwaits Hrange.
    destruct (Chat_all_errors (maxRetries c) Hwaits eq_refl) as
      (woke & err' & back & call & Hdo & Hret); [lia | |].
    { intros j _ t. exists err, t, None. apply doRequest_unbuildable. exact Hbuild. }
    rewrite (doRequest_unbuildable err _ woke Hbuild) in Hdo.
    injection Hdo as <- _ _. exact Hret.
Qed.

(** X7: when every attempt fails with an error (a network error, a
    cancelled call, a request that cannot be built), through waits that
    complete [Chat] makes all [M + 1] attempts and returns the max-retries
    error that wraps the error of the last one. *)
Theorem Chat_errors_exhaust_budget (M : Z) :
  waitsComplete w c ctx req ->
  maxRetries c = M ->
  0 <= M < int64_max ->
  (forall j, 0 <= j <= M -> yieldsError w c (withDefaultModel c req) j) ->
  exists woke err back call,
    doRequest w c M woke (withDefaultModel c req) = (inr err, back, call)
    /\ returned (Chat w c ctx req)
       = (zeroChatResponse, Some (maxRetriesExceeded (Some err)))
    /\ Unwrap (maxRetriesExceeded (Some err)) = Some err
    /\ Error (maxRetriesExceeded (Some err)) = "max retries exceeded: " +:+ Error err.
Proof.
  intros Hwaits HM Hrange Hfail.
  destruct (Chat_all_errors M Hwaits HM) as (woke & err & back & call & Hdo & Hret);
    [lia | exact Hfail |].
  exists woke, err, back, call. repeat split; assumption.
Qed.

End Outcomes.

(** X8: [NewClient] keeps the three strings it is given and applies the
    options in order, so that the last [WithMaxRetries] and the last
    [WithHttpClient] of the list win; without them the budget is 3 and the
    client the default one. No value is refused: a negative budget is
    stored as it is. *)
Theorem NewClient_options (url key name : string) (choices : list OptionChoice) :
  NewClient url key name (map applyChoice choices)
  = mkClient url key name (chosenHttpClient choices) (chosenRetries choices)
  /\ (forall n, chosenRetries (choices ++ [UseMaxRetries n]) = n)
  /\ (forall h, chosenHttpClient (choices ++ [UseHttpClient h]) = h)
  /\ (forall n, chosenHttpClient (choices ++ [UseMaxRetries n]) = chosenHttpClient choices)
  /\ (forall h, chosenRetries (choices ++ [UseHttpClient h]) = chosenRetries choices).
Proof.
  split.
  - unfold NewClient, chosenHttpClient, chosenRetries.
    generalize DefaultClient, 3. induction choices as [|o rest IH]; intros h n; simpl.
    + reflexivity.
    + destruct o as [h'|n']; simpl; apply IH.
  - unfold chosenRetries, chosenHttpClient.
    repeat split; intros x; rewrite fold_left_app; reflexivity.
Qed.

Section Wrappers.

Variable w : World.
Variable c : Client.
Variable ctx : Context.

(** X9: the error [SimpleRequest] returns is the error of [Chat], and
    nothing else: with a nil error the text is the content of the first
    choice, which is there; its own no-choices check never decides. With
    an error the text is empty. *)
Theorem SimpleRequest_returns_Chat_error (systemPrompt userPrompt : string) :
  snd (fst (SimpleRequest w c ctx systemPrompt userPrompt))
  = snd (returned (snd (SimpleRequest w c ctx systemPrompt userPrompt)))
  /\ (snd (fst (SimpleRequest w c ctx systemPrompt userPrompt)) = None ->
      exists first rest,
        Choices (fst (returned (snd (SimpleRequest w c ctx systemPrompt userPrompt))))
        = first :: rest
        /\ fst (fst (SimpleRequest w c ctx systemPrompt userPrompt))
           = Content (ChoiceMessage first))
  /\ (snd (fst (SimpleRequest w c ctx systemPrompt userPrompt)) <> None ->
      fst (fst (SimpleRequest w c ctx systemPrompt userPrompt)) = "").
Proof.
  unfold SimpleRequest. simpl.
  set (run := Chat w c ctx (newChatRequest (simpleMessages systemPrompt userPrompt) None)).
  destruct (returned run) as [resp [err|]] eqn:Hret; simpl.
  - split; [reflexivity|]. split; [discriminate | reflexivity].
  - destruct (Chat_nil_error w c ctx _ resp Hret) as (_ & (first & rest & Hchoices) & _).
    rewrite Hchoices. simpl. split; [reflexivity|]. split.
    + intros _. exists first, rest. split; reflexivity.
    + intros Hsome. contradiction.
Qed.

(** X10: once the schema is generated, [RequestWithSchema] sends the
    system message even when the system prompt is empty, then the user
    message, with the schema attached and the client's model; it returns
    the error of [Chat] as it is, and after a success the error of
    [json.Unmarshal] on the content of the first choice, as it is, or
    nil. *)
Theorem RequestWithSchema_after_schema (systemPrompt userPrompt : string)
    (schema : option GoType) (jsonSchema : Schema) :
  GenerateSchema schema = Ok jsonSchema ->
  snd (RequestWithSchema w c ctx systemPrompt userPrompt schema)
  = calls (Chat w c ctx
             (newChatRequest
                [mkMessage "system" systemPrompt; mkMessage "user" userPrompt]
                (Some jsonSchema)))
  /\ (forall s,
        In s (snd (RequestWithSchema w c ctx systemPrompt userPrompt schema)) ->
        Messages (sent_request s)
        = [mkMessage "system" systemPrompt; mkMessage "user" userPrompt]
        /\ JSONSchema (sent_request s) = Some jsonSchema
        /\ Model (sent_request s) = model c)
  /\ (forall resp err,
        returned (Chat w c ctx
                    (newChatRequest
                       [mkMessage "system" systemPrompt; mkMessage "user" userPrompt]
                       (Some jsonSchema))) = (resp, Some err) ->
        fst (RequestWithSchema w c ctx systemPrompt userPrompt schema) = Err err)
  /\ (forall resp,
        returned (Chat w c ctx
                    (newChatRequest
                       [mkMessage "system" systemPrompt; mkMessage "user" userPrompt]
                       (Some jsonSchema))) = (resp, None) ->
        exists first rest,
          Choices resp = first :: rest
          /\ fst (RequestWithSchema w c ctx systemPrompt userPrompt schema)
             = match json_Unmarshal w (Content (ChoiceMessage first)) schema with
               | Some err => Err err
               | None => Ok tt
               end).
Proof.
  intros Hschema.
  set (request := newChatRequest
                    [mkMessage "system" systemPrompt; mkMessage "user" userPrompt]
                    (Some jsonSchema)).
  assert (Hcalls : snd (RequestWithSchema w c ctx systemPrompt userPrompt schema)
                   = calls (Chat w c ctx request)).
  { unfold RequestWithSchema. rewrite Hschema. fold request. simpl.
    destruct (returned (Chat w c ctx request)) as [resp [err|]]; [reflexivity|].
    destruct (Choices resp) as [|first rest]; [reflexivity|].
    destruct (json_Unmarshal w _ schema); reflexivity. }
  split; [exact Hcalls|]. split; [|split].
  - intros s Hin. rewrite Hcalls in Hin.
    pose proof (Chat_calls w c ctx request) as Hall.
    rewrite Forall_forall in Hall. apply list_elem_of_In in Hin.
    destruct (Hall s Hin) as [-> _]. repeat split; reflexivity.
  - intros resp err Hret. unfold RequestWithSchema. rewrite Hschema. fold request.
    simpl. rewrite Hret. reflexivity.
  - intros resp Hret. unfold RequestWithSchema. rewrite Hschema. fold request.
    simpl. rewrite Hret.
    destruct (Chat_nil_error w c ctx request resp Hret)
      as (_ & (first & rest & Hchoices) & _).
    exists first, rest. split; [exact Hchoices|]. rewrite Hchoices.
    destruct (json_Unmarshal w _ schema); reflexivity.
Qed.

End Wrappers.

(* ================================================================== *)
(** * Further properties of the schema generator *)
(* ================================================================== *)

Lemma objectNode_properties (props : Schema) (req : list string) :
  objectNode props req !! "properties" = Some (JObject props)
  /\ objectNode props req !! "type" = Some (JString "object").
Proof.
  unfold objectNode.
  destruct (0 <? Z.of_nat (List.length req)); split.
  - rewrite lookup_insert_ne by discriminate. apply lookup_insert_eq.
  - rewrite !lookup_insert_ne by discriminate. apply lookup_singleton_eq.
  - apply lookup_insert_eq.
  - rewrite lookup_insert_ne by discriminate. apply lookup_singleton_eq.
Qed.

(** The shape of a generated schema: an object node with the properties
    of the struct for a struct under pointers, and no [properties] key
    otherwise. *)
Lemma generate_shape (t : GoType) :
  forall schema,
    generateSchemaForType t = Ok schema ->
    match derefAll t with
    | TStruct _ =>
        schema !! "type" = Some (JString "object")
        /\ exists props,
             schema !! "properties" = Some (JObject props)
             /\ dom props = propertyNames t
    | _ => schema !! "properties" = None
    end.
Proof.
  induction t as [b|len elem IH|elem IH|elem IH|elem IH|key elem IHk IH| | |fields IH]
    using GoType_fields_ind; intros schema Hgen.
  - destruct b; simpl in Hgen; try discriminate Hgen;
      injection Hgen as <-; simpl; apply lookup_singleton_ne; discriminate.
  - simpl in Hgen. unfold generateArraySchema_with in Hgen.
    destruct (generateSchemaForType elem); try discriminate Hgen.
    injection Hgen as <-. simpl.
    rewrite lookup_insert_ne by discriminate. apply lookup_singleton_ne. discriminate.
  - simpl in Hgen. unfold generateArraySchema_with in Hgen.
    destruct (generateSchemaForType elem); try discriminate Hgen.
    injection Hgen as <-. simpl.
    rewrite lookup_insert_ne by discriminate. apply lookup_singleton_ne. discriminate.
  - simpl in Hgen. simpl. apply IH. exact Hgen.
  - discriminate Hgen.
  - discriminate Hgen.
  - discriminate Hgen.
  - discriminate Hgen.
  - simpl in Hgen. unfold generateObjectSchema_with in Hgen.
    assert (Hloop : forall props req props' req',
               objectFields generateSchemaForType fields props req = Ok (props', req') ->
               dom props' = dom props ∪ propertyNames (TStruct fields)).
    { clear Hgen schema.
      induction IH as [|field rest Hfield _ IHrest]; intros props req props' req' Hloop.
      - simpl in Hloop. injection Hloop as <- _. simpl. set_solver.
      - simpl in Hloop.
        destruct (objectField generateSchemaForType field props req)
          as [[props1 req1]|err|msg] eqn:Hstep; try discriminate Hloop.
        apply IHrest in Hloop. rewrite Hloop. clear Hloop.
        change (propertyNames (TStruct (field :: rest))) with
          ((if negb (IsExported field) then ∅
            else if Anonymous field then propertyNames (Typ field)
            else if String.eqb (Tag_Get (Tag field) "json") "-" then ∅
            else {[jsonName field]}) ∪ propertyNames (TStruct rest)).
        unfold objectField in Hstep.
        destruct (negb (IsExported field)).
        { injection Hstep as <- _. set_solver. }
        destruct (Anonymous field).
        { destruct (generateSchemaForType (Typ field)) as [emb|err|msg] eqn:Hemb;
            try discriminate Hstep.
          specialize (Hfield emb eq_refl).
          destruct (emb !! "properties") as [[s|l|eprops]|] eqn:Hprops;
            try discriminate Hstep.
          assert (Hdom : dom eprops = propertyNames (Typ field)).
          { destruct (derefAll (Typ field)); try discriminate Hfield.
            destruct Hfield as (_ & props0 & Heq & Hdom). congruence. }
          assert (Hprops1 : props1 = eprops ∪ props).
          { destruct (emb !! "required") as [[s|l|m]|]; congruence. }
          rewrite Hprops1, dom_union_L, Hdom. set_solver. }
        destruct (String.eqb (Tag_Get (Tag field) "json") "-").
        { injection Hstep as <- _. set_solver. }
        destruct (generateSchemaForType (Typ field)) as [ps|err|msg];
          try discriminate Hstep.
        injection Hstep as <- _. rewrite dom_insert_L. set_solver. }
    destruct (objectFields generateSchemaForType fields ∅ []) as [[props req]|err|msg] eqn:Hfields;
      try discriminate Hgen.
    injection Hgen as <-. apply Hloop in Hfields.
    destruct (objectNode_properties props req) as [Hprops Htype].
    simpl derefAll. cbv iota. split; [exact Htype|].
    exists props. split; [exact Hprops|]. rewrite Hfields. set_solver.
Qed.

(** X11: [GenerateSchema] succeeds only with an object node, and the
    names of its properties are the JSON names of the exported, named
    fields that are not tagged [-], with those of the exported embedded
    structs: an unexported or skipped field never shows. *)
Theorem GenerateSchema_property_names (t : GoType) (schema : Schema) :
  GenerateSchema (Some t) = Ok schema ->
  schema !! "type" = Some (JString "object")
  /\ exists props,
       schema !! "properties" = Some (JObject props)
       /\ dom props = propertyNames (derefOnce t).
Proof.
  unfold GenerateSchema. fold (derefOnce t). intros Hgen.
  destruct (derefOnce t) as [b|len elem|elem|elem|elem|key elem| | |fields] eqn:Htop;
    try discriminate Hgen.
  - destruct b; discriminate Hgen.
  - simpl Kind_of in Hgen. cbv iota in Hgen.
    exact (generate_shape (TStruct fields) schema Hgen).
Qed.

(** X12: in every generated schema, each name of the [required] list is
    the name of one of the properties of the same node. *)
Theorem required_names_are_properties (t : GoType) :
  forall schema required,
    generateSchemaForType t = Ok schema ->
    schema !! "required" = Some (JStrings required) ->
    exists props,
      schema !! "properties" = Some (JObject props)
      /\ Forall (fun name => is_Some (props !! name)) required.
Proof.
  induction t as [b|len elem IH|elem IH|elem IH|elem IH|key elem IHk IH| | |fields IH]
    using GoType_fields_ind; intros schema required Hgen Hreq;
    try (apply generate_required in Hgen; simpl in Hgen; congruence).
  - simpl in Hgen. eapply IH; eassumption.
  - simpl in Hgen. unfold generateObjectSchema_with in Hgen.
    assert (Hloop : forall props req props' req',
               objectFields generateSchemaForType fields props req = Ok (props', req') ->
               Forall (fun name => is_Some (props !! name)) req ->
               Forall (fun name => is_Some (props' !! name)) req').
    { clear Hgen Hreq schema required.
      induction IH as [|field rest Hfield _ IHrest]; intros props req props' req' Hloop Hinv.
      - simpl in Hloop. injection Hloop as <- <-. exact Hinv.
      - simpl in Hloop.
        destruct (objectField generateSchemaForType field props req)
          as [[props1 req1]|err|msg] eqn:Hstep; try discriminate Hloop.
        apply (IHrest props1 req1); [exact Hloop|]. clear Hloop.
        unfold objectField in Hstep.
        destruct (negb (IsExported field)).
        { injection Hstep as <- <-. exact Hinv. }
        destruct (Anonymous field).
        { destruct (generateSchemaForType (Typ field)) as [emb|err|msg] eqn:Hemb;
            try discriminate Hstep.
          destruct (emb !! "properties") as [[s|l|eprops]|] eqn:Hprops;
            try discriminate Hstep.
          assert (Hold : Forall (fun name => is_Some ((eprops ∪ props) !! name)) req).
          { eapply Forall_impl; [exact Hinv|]. simpl. intros name Hname.
            apply lookup_union_is_Some. right. exact Hname. }
          destruct (emb !! "required") as [[s|embedded|m]|] eqn:Hembreq;
            injection Hstep as <- <-; try exact Hold.
          apply Forall_app. split; [exact Hold|].
          destruct (Hfield emb embedded eq_refl Hembreq) as (props0 & Heq & Hnames).
          assert (props0 = eprops) by congruence. subst props0.
          eapply Forall_impl; [exact Hnames|]. simpl. intros name Hname.
          apply lookup_union_is_Some. left. exact Hname. }
        destruct (String.eqb (Tag_Get (Tag field) "json") "-").
        { injection Hstep as <- <-. exact Hinv. }
        destruct (generateSchemaForType (Typ field)) as [ps|err|msg];
          try discriminate Hstep.
        injection Hstep as <- <-.
        assert (Hold : forall name, is_Some (props !! name) ->
                         is_Some (<[jsonName field := JObject
                                      (if negb (String.eqb
                                                  (parseSchemaTag (Tag_Get (Tag field) "schema")
                                                     "description") "")
                                       then <["description" :=
                                                JString (parseSchemaTag
                                                           (Tag_Get (Tag field) "schema")
                                                           "description")]> ps
                                       else ps)]> props !! name)).
        { intros name Hname. rewrite lookup_insert_is_Some. 
          destruct (decide (jsonName field = name)); [left; assumption | right; split; assumption]. }
        destruct (negb (isOptional field)).
        { apply Forall_app. split.
          - eapply Forall_impl; [exact Hinv|]. exact Hold.
          - constructor; [|constructor]. rewrite lookup_insert_eq. eexists. reflexivity. }
        eapply Forall_impl; [exact Hinv|]. exact Hold. }
    destruct (objectFields generateSchemaForType fields ∅ []) as [[props req]|err|msg] eqn:Hfields;
      try discriminate Hgen.
    injection Hgen as <-.
    destruct (objectNode_properties props req) as [Hprops _].
    exists props. split; [exact Hprops|].
    rewrite objectNode_required in Hreq.
    destruct req as [|name names]; [discriminate Hreq|].
    injection Hreq as <-.
    apply (Hloop ∅ [] props (name :: names) Hfields). constructor.
Qed.

(** X13: an exported embedded field is not treated as a property. When
    its type has no schema, the error comes back as it is, without the
    name of the field; when its type has a schema that is not an object
    (a slice, an array, a string, a number, a boolean, under any
    pointers), the generator panics, and so do [GenerateSchema] and
    [RequestWithSchema], before any network call. *)
Theorem embedded_field_failures (w : World) (c : Client) (ctx : Context)
    (systemPrompt userPrompt : string)
    (before after : list (StructField GoType)) (field : StructField GoType)
    (props : Schema) (required : list string) :
  objectFields generateSchemaForType before ∅ [] = Ok (props, required) ->
  IsExported field = true ->
  Anonymous field = true ->
  (forall err,
     generateSchemaForType (Typ field) = Err err ->
     generateSchemaForType (TStruct (before ++ field :: after)) = Err err)
  /\ (forall embedded,
        generateSchemaForType (Typ field) = Ok embedded ->
        Kind_of (derefAll (Typ field)) <> Struct ->
        exists msg,
          generateSchemaForType (TStruct (before ++ field :: after)) = Panic msg
          /\ GenerateSchema (Some (TPtr (TStruct (before ++ field :: after)))) = Panic msg
          /\ RequestWithSchema w c ctx systemPrompt userPrompt
               (Some (TPtr (TStruct (before ++ field :: after))))
             = (Panic msg, [])).
Proof.
  intros Hbefore Hexported Hanonymous. split.
  - intros err Hgen. simpl. unfold generateObjectSchema_with.
    rewrite objectFields_app, Hbefore. simpl. unfold objectField.
    rewrite Hexported, Hanonymous, Hgen. reflexivity.
  - intros embedded Hgen Hkind.
    assert (Hnone : embedded !! "properties" = None).
    { pose proof (generate_shape (Typ field) embedded Hgen) as Hshape.
      destruct (derefAll (Typ field)); try exact Hshape.
      exfalso. apply Hkind. reflexivity. }
    assert (Hpanic : generateSchemaForType (TStruct (before ++ field :: after))
                     = Panic "interface conversion: interface {} is not map[string]interface {}").
    { simpl. unfold generateObjectSchema_with.
      rewrite objectFields_app, Hbefore. simpl. unfold objectField.
      rewrite Hexported, Hanonymous, Hgen, Hnone. reflexivity. }
    eexists. split; [exact Hpanic|].
    assert (Htop : GenerateSchema (Some (TPtr (TStruct (before ++ field :: after))))
                   = Panic "interface conversion: interface {} is not map[string]interface {}")
      by exact Hpanic.
    split; [exact Htop|]. unfold RequestWithSchema. rewrite Htop. reflexivity.
Qed.

(** Fields that are not exported embedded ones, and whose property
    names differ from [name], leave the property [name] as it is. *)
Lemma objectFields_keeps (gen : GoType -> result Schema) (name : string)
    (fields : list (StructField GoType)) :
  Forall (fun g => IsExported g = false \/ Anonymous g = false) fields ->
  Forall (fun g => isProperty g = true -> jsonName g <> name) fields ->
  forall props req props' req',
    objectFields gen fields props req = Ok (props', req') ->
    props' !! name = props !! name.
Proof.
  intros Hplain Hnames.
  induction fields as [|g rest IH]; intros props req props' req' Hloop; simpl in Hloop.
  - injection Hloop as <- _. reflexivity.
  - inversion Hplain as [|? ? Hg Hrest]; subst.
    inversion Hnames as [|? ? Hname Hnamesrest]; subst.
    destruct (objectField gen g props req) as [[props1 req1]|err|msg] eqn:Hstep;
      try discriminate Hloop.
    rewrite (IH Hrest Hnamesrest _ _ _ _ Hloop). clear Hloop IH.
    unfold objectField in Hstep. unfold isProperty in Hname.
    destruct (IsExported g); simpl in *.
    + destruct Hg as [Hg|Hg]; [discriminate Hg|]. rewrite Hg in *. simpl in *.
      destruct (String.eqb (Tag_Get (Tag g) "json") "-").
      * injection Hstep as <- _. reflexivity.
      * destruct (gen (Typ g)); try discriminate Hstep.
        injection Hstep as <- _. apply lookup_insert_ne. apply Hname. reflexivity.
    + injection Hstep as <- _. reflexivity.
Qed.

(** X14: the node of a property is found under its JSON name, and it is
    the schema of the field's type with the description of its [schema]
    tag: a later property of the same name would take its place, so the
    fields after it are taken to have other names (and not to be exported
    embedded ones, whose properties are copied over the earlier ones). *)
Theorem property_node_lookup (before after : list (StructField GoType))
    (field : StructField GoType) (schema : Schema) :
  generateSchemaForType (TStruct (before ++ field :: after)) = Ok schema ->
  isProperty field = true ->
  Forall (fun g => IsExported g = false \/ Anonymous g = false) after ->
  Forall (fun g => isProperty g = true -> jsonName g <> jsonName field) after ->
  exists propSchema props,
    generateSchemaForType (Typ field) = Ok propSchema
    /\ schema !! "properties" = Some (JObject props)
    /\ props !! jsonName field = Some (JObject (withDescription field propSchema)).
Proof.
  intros Hgen Hprop Hplain Hnames.
  simpl in Hgen. unfold generateObjectSchema_with in Hgen.
  rewrite objectFields_app in Hgen.
  destruct (objectFields generateSchemaForType before ∅ []) as [[props0 req0]|err|msg];
    try discriminate Hgen.
  simpl in Hgen.
  destruct (objectField generateSchemaForType field props0 req0)
    as [[props1 req1]|err|msg] eqn:Hstep; try discriminate Hgen.
  destruct (objectFields generateSchemaForType after props1 req1)
    as [[props2 req2]|err|msg] eqn:Hafter; try discriminate Hgen.
  injection Hgen as <-.
  pose proof (objectFields_keeps _ (jsonName field) after Hplain Hnames _ _ _ _ Hafter)
    as Hkeep.
  unfold isProperty in Hprop.
  apply andb_true_iff in Hprop as [Hprop Hdash].
  apply andb_true_iff in Hprop as [Hexp Hanon].
  apply negb_true_iff in Hanon, Hdash.
  unfold objectField in Hstep. rewrite Hexp, Hanon, Hdash in Hstep. simpl in Hstep.
  destruct (generateSchemaForType (Typ field)) as [propSchema|err|msg];
    try discriminate Hstep.
  injection Hstep as <- _.
  exists propSchema, props2. split; [reflexivity|].
  split; [exact (proj1 (objectNode_properties props2 req2))|].
  rewrite Hkeep. apply lookup_insert_eq.
Qed.

(** ** The [schema] tag *)

Lemma append_cons (ch : ascii) (a b : string) :
  String ch a +:+ b = String ch (a +:+ b).
Proof. reflexivity. Qed.

Lemma append_empty (b : string) : EmptyString +:+ b = b.
Proof. reflexivity. Qed.

Lemma append_assoc (a b d : string) : (a +:+ b) +:+ d = a +:+ (b +:+ d).
Proof.
  induction a as [|ch a IH]; [reflexivity|].
  rewrite !append_cons. f_equal. exact IH.
Qed.

Lemma freeOf_append (b : ascii) (s1 s2 : string) :
  freeOf b s1 -> freeOf b s2 -> freeOf b (s1 +:+ s2).
Proof.
  induction s1 as [|ch s1 IH]; [intros _ Hs2; exact Hs2|].
  intros [Hch Hs1] Hs2. rewrite append_cons. split; [exact Hch | exact (IH Hs1 Hs2)].
Qed.

Lemma strings_Split_free (s : string) (sep : ascii) :
  freeOf sep s -> strings_Split s sep = [s].
Proof.
  induction s as [|ch s IH]; simpl; [reflexivity|]. intros [Hch Hs].
  destruct (Ascii.eqb_spec ch sep) as [Heq|_]; [contradiction|].
  rewrite (IH Hs). reflexivity.
Qed.

Lemma strings_Split_append (s rest : string) (sep : ascii) :
  freeOf sep s ->
  strings_Split (s +:+ String sep rest) sep = s :: strings_Split rest sep.
Proof.
  induction s as [|ch s IH].
  - intros _. rewrite append_empty. simpl. rewrite Ascii.eqb_refl. reflexivity.
  - intros [Hch Hs]. rewrite append_cons. simpl.
    destruct (Ascii.eqb_spec ch sep) as [Heq|_]; [contradiction|].
    rewrite (IH Hs). reflexivity.
Qed.

(** [strings.Split] undoes [strings.Join] on parts without the
    separator. *)
Lemma strings_Split_Join (parts : list string) (sep : ascii) :
  parts <> [] ->
  Forall (freeOf sep) parts ->
  strings_Split (strings_Join parts sep) sep = parts.
Proof.
  induction parts as [|part rest IH]; intros Hne Hfree; [contradiction|].
  inversion Hfree as [|? ? Hpart Hrest]; subst.
  destruct rest as [|next rest].
  - simpl. apply strings_Split_free. exact Hpart.
  - change (strings_Join (part :: next :: rest) sep)
      with (part +:+ String sep (strings_Join (next :: rest) sep)).
    rewrite strings_Split_append by exact Hpart.
    rewrite IH; [reflexivity | discriminate | exact Hrest].
Qed.

Lemma strip_prefix_append (p s : string) : strip_prefix p (p +:+ s) = Some s.
Proof.
  induction p as [|ch p IH]; [reflexivity|].
  rewrite append_cons. simpl. rewrite Ascii.eqb_refl. exact IH.
Qed.

Lemma parseSchemaParts_skip (before rest : list string) (key : string) :
  Forall (fun part => strings_HasPrefix part (key +:+ "=") = false) before ->
  parseSchemaParts (before ++ rest) key = parseSchemaParts rest key.
Proof.
  induction 1 as [|part before Hpart _ IH]; simpl; [reflexivity|].
  rewrite Hpart. exact IH.
Qed.

(** X15: [parseSchemaTag] reads a tag [p1;p2;...] part by part and
    returns what follows [key=] in the first part that starts with it,
    as it is (no trimming, and an [=] in the value is part of it); it
    returns the empty string when no part starts with [key=]. *)
Theorem parseSchemaTag_first_match (key value : string) (before after : list string) :
  Forall (freeOf ";") (before ++ after) ->
  freeOf ";" key ->
  freeOf ";" value ->
  Forall (fun part => strings_HasPrefix part (key +:+ "=") = false) before ->
  parseSchemaTag (strings_Join (before ++ (key +:+ "=" +:+ value) :: after) ";") key
  = value
  /\ (Forall (fun part => strings_HasPrefix part (key +:+ "=") = false) after ->
      parseSchemaTag (strings_Join (before ++ after) ";") key = "").
Proof.
  intros Hfree Hkey Hvalue Hbefore.
  apply Forall_app in Hfree as [Hfb Hfa]. split.
  - unfold parseSchemaTag. rewrite strings_Split_Join.
    + rewrite parseSchemaParts_skip by exact Hbefore. simpl.
      unfold strings_HasPrefix, strings_TrimPrefix.
      rewrite <- append_assoc, strip_prefix_append. reflexivity.
    + destruct before; discriminate.
    + apply Forall_app. split; [exact Hfb|]. constructor; [|exact Hfa].
      apply freeOf_append; [exact Hkey|]. simpl. split; [discriminate | exact Hvalue].
  - intros Hafter. unfold parseSchemaTag.
    destruct (before ++ after) as [|part rest] eqn:Hparts.
    + simpl. unfold strings_HasPrefix.
      destruct key; reflexivity.
    + rewrite strings_Split_Join; [|discriminate|].
      * rewrite <- Hparts, parseSchemaParts_skip by exact Hbefore.
        rewrite <- (app_nil_r after), parseSchemaParts_skip by exact Hafter.
        reflexivity.
      * rewrite <- Hparts. apply Forall_app. split; assumption.
Qed.

(* ================================================================== *)
(** * The further properties on the scripted server *)
(* ================================================================== *)

Lemma Chat_returns_terminal_response_witness :
  Chat (scriptedWorld ms100 notFoundScript) (testClient []) Background helloRequest
  = mkChatRun
      (zeroChatResponse, Some (Errorf "API error: status 404, body: not found" None))
      [helloSent].
Proof.
  apply (Chat_returns_terminal_response (scriptedWorld ms100 notFoundScript)
           (testClient []) Background helloRequest 0
           (initialState (scriptedWorld ms100 notFoundScript)) 0 ms100
           (mkResponse 404 "not found") (Some helloSent)).
  - reflexivity.
  - reflexivity.
  - reflexivity.
  - simpl. lia.
  - simpl. lia.
Defined.

Lemma Chat_success_has_choice_witness :
  (1 <= List.length (Choices sampleResponse))%nat
  /\ (exists apiResp,
        StatusCode apiResp = 200
        /\ json_Decode (scriptedWorld ms100 retryScript) (Body apiResp)
           = (sampleResponse, None))
  /\ (1 <= List.length (calls (Chat (scriptedWorld ms100 retryScript) (testClient [])
                                 Background helloRequest)))%nat.
Proof.
  apply (Chat_success_has_choice (scriptedWorld ms100 retryScript) (testClient [])
           Background helloRequest sampleResponse).
  vm_compute. reflexivity.
Defined.

Lemma Chat_negative_budget_witness :
  Chat (scriptedWorld ms100 retryScript) (testClient [WithMaxRetries (-1)])
    Background helloRequest
  = mkChatRun (zeroChatResponse, Some (Errorf "max retries exceeded: %!w(<nil>)" None)) [].
Proof.
  apply (Chat_negative_budget (scriptedWorld ms100 retryScript)
           (testClient [WithMaxRetries (-1)]) Background helloRequest).
  simpl. lia.
Defined.

Lemma Chat_wire_format_witness :
  Method (sent_http plainSent) = "POST"
  /\ URL (sent_http plainSent) = baseURL (testClient []) +:+ "/chat/completions"
  /\ Header (sent_http plainSent) =
     [("Content-Type", "application/json");
      ("Authorization", "Bearer " +:+ apiKey (testClient []))]
  /\ json_Marshal (scriptedWorld ms100 retryScript)
       (withDefaultModel (testClient []) plainRequest)
     = inl (RequestBody (sent_http plainSent)).
Proof.
  apply (Chat_wire_format (scriptedWorld ms100 retryScript) (testClient [])
           Background plainRequest plainSent).
  vm_compute. left. reflexivity.
Defined.

Lemma Chat_unbuildable_request_witness :
  calls (Chat unmarshallableWorld (testClient []) Background helloRequest) = []
  /\ returned (Chat unmarshallableWorld (testClient []) Background helloRequest)
     = (zeroChatResponse,
        Some (maxRetriesExceeded
                (Some (Errorf "failed to marshal request: json: unsupported value: NaN"
                         (Some (LibError "json: unsupported value: NaN" None)))))).
Proof.
  destruct (Chat_unbuildable_request unmarshallableWorld (testClient []) Background
              helloRequest
              (Errorf "failed to marshal request: json: unsupported value: NaN"
                 (Some (LibError "json: unsupported value: NaN" None))))
    as [Hcalls Hret].
  - left. exists (LibError "json: unsupported value: NaN" None). split; reflexivity.
  - split; [exact Hcalls|]. apply Hret.
    + apply live_waitsComplete. reflexivity.
    + unfold int64_max. simpl. lia.
Defined.

Lemma Chat_errors_exhaust_budget_witness :
  exists woke err back call,
    doRequest (scriptedWorld ms100 refusedScript) (testClient [WithMaxRetries 1]) 1 woke
      (withDefaultModel (testClient [WithMaxRetries 1]) helloRequest)
    = (inr err, back, call)
    /\ returned (Chat (scriptedWorld ms100 refusedScript) (testClient [WithMaxRetries 1])
                   Background helloRequest)
       = (zeroChatResponse, Some (maxRetriesExceeded (Some err)))
    /\ Unwrap (maxRetriesExceeded (Some err)) = Some err
    /\ Error (maxRetriesExceeded (Some err)) = "max retries exceeded: " +:+ Error err.
Proof.
  apply (Chat_errors_exhaust_budget (scriptedWorld ms100 refusedScript)
           (testClient [WithMaxRetries 1]) Background helloRequest 1).
  - apply live_waitsComplete. reflexivity.
  - reflexivity.
  - unfold int64_max. lia.
  - intros j Hj t. eexists _, _, _. reflexivity.
Defined.

Lemma RequestWithSchema_after_schema_witness :
  fst (RequestWithSchema (scriptedWorld ms100 retryScript) (testClient []) Background
         "" "Who?" (Some (TPtr personType)))
  = Ok tt
  /\ map (fun s => Messages (sent_request s))
       (snd (RequestWithSchema (scriptedWorld ms100 retryScript) (testClient [])
               Background "" "Who?" (Some (TPtr personType))))
     = [ [mkMessage "system" ""; mkMessage "user" "Who?"];
         [mkMessage "system" ""; mkMessage "user" "Who?"];
         [mkMessage "system" ""; mkMessage "user" "Who?"] ].
Proof.
  pose proof (RequestWithSchema_after_schema (scriptedWorld ms100 retryScript)
                (testClient []) Background "" "Who?" (Some (TPtr personType))
                personSchema) as H.
  destruct H as (Hcalls & _ & _ & Hok).
  - vm_compute. reflexivity.
  - destruct (Hok sampleResponse) as (first & rest & Hchoices & Hret).
    + vm_compute. reflexivity.
    + split; [rewrite Hret; reflexivity|].
      rewrite Hcalls. vm_compute. reflexivity.
Defined.

Lemma GenerateSchema_property_names_witness :
  describedSchema !! "type" = Some (JString "object")
  /\ exists props,
       describedSchema !! "properties" = Some (JObject props)
       /\ dom props = propertyNames (derefOnce (TPtr describedType)).
Proof.
  apply (GenerateSchema_property_names (TPtr describedType) describedSchema).
  vm_compute. reflexivity.
Defined.

Lemma required_names_are_properties_witness :
  exists props,
    personSchema !! "properties" = Some (JObject props)
    /\ Forall (fun name => is_Some (props !! name)) ["name"].
Proof.
  apply (required_names_are_properties personType personSchema ["name"]).
  - vm_compute. reflexivity.
  - vm_compute. reflexivity.
Defined.

Lemma embedded_field_failures_witness :
  generateSchemaForType embedsInterface = Err (unsupportedType Interface)
  /\ exists msg,
       generateSchemaForType embedsSlice = Panic msg
       /\ GenerateSchema (Some (TPtr embedsSlice)) = Panic msg
       /\ RequestWithSchema (scriptedWorld ms100 retryScript) (testClient []) Background
            "system" "user" (Some (TPtr embedsSlice))
          = (Panic msg, []).
Proof.
  split.
  - apply (proj1 (embedded_field_failures (scriptedWorld ms100 retryScript) (testClient [])
                    Background "system" "user" [] []
                    (mkField "Reader" "" TInterface [] true) ∅ []
                    eq_refl eq_refl eq_refl)).
    reflexivity.
  - apply (proj2 (embedded_field_failures (scriptedWorld ms100 retryScript) (testClient [])
                    Background "system" "user" []
                    [mkField "Name" "" (TBasic BString) [("json", "name")] false]
                    (mkField "Tags" "" (TSlice (TBasic BString)) [] true) ∅ []
                    eq_refl eq_refl eq_refl)
             (<["items" := JObject {["type" := JString "string"]}]>
                {["type" := JString "array"]})).
    + reflexivity.
    + simpl. discriminate.
Defined.

Lemma property_node_lookup_witness :
  exists propSchema props,
    generateSchemaForType (TBasic BString) = Ok propSchema
    /\ describedSchema !! "properties" = Some (JObject props)
    /\ props !! "name"
       = Some (JObject (<["description" := JString "Full name"]>
                          {["type" := JString "string"]})).
Proof.
  destruct (property_node_lookup
              [mkField "Person" "" personType [] true]
              [mkField "secret" "llmclient" (TBasic BString) [] false]
              (mkField "Name" "" (TBasic BString)
                 [("json", "name"); ("schema", "format=plain;description=Full name")] false)
              describedSchema)
    as (propSchema & props & Hgen & Hprops & Hlookup).
  - vm_compute. reflexivity.
  - reflexivity.
  - constructor; [left; reflexivity | constructor].
  - constructor; [intros Hprop; discriminate Hprop | constructor].
  - exists propSchema, props. split; [exact Hgen|]. split; [exact Hprops|].
    simpl in Hgen. injection Hgen as <-. exact Hlookup.
Defined.

Lemma parseSchemaTag_first_match_witness :
  parseSchemaTag "format=plain;description=Full name;pattern=a=b" "description"
  = "Full name"
  /\ (Forall (fun part => strings_HasPrefix part "description=" = false) ["pattern=a=b"] ->
      parseSchemaTag "format=plain;pattern=a=b" "description" = "").
Proof.
  apply (parseSchemaTag_first_match "description" "Full name"
           ["format=plain"] ["pattern=a=b"]).
  - repeat constructor; discriminate.
  - repeat constructor; discriminate.
  - repeat constructor; discriminate.
  - constructor; [reflexivity | constructor].
Defined.

(* ================================================================== *)
(** * [cleanJSONResponse]: properties *)
(* ================================================================== *)

Lemma asciiSpace_isASCII (c : ascii) : asciiSpace c = true -> isASCII c = true.
Proof.
  destruct c as [b0 b1 b2 b3 b4 b5 b6 b7].
  destruct b7; [|reflexivity].
  destruct b0, b1, b2, b3, b4, b5, b6; discriminate.
Qed.

Lemma skipSpaceLeft_spaces (ws s : string) :
  allSpace ws = true -> skipSpaceLeft (ws +:+ s) = skipSpaceLeft s.
Proof.
  induction ws as [|c ws IH]; [reflexivity|]. simpl allSpace.
  intros Hws. apply andb_true_iff in Hws as [Hc Hws].
  rewrite append_cons. simpl. rewrite (asciiSpace_isASCII c Hc), Hc. simpl.
  exact (IH Hws).
Qed.

Lemma skipSpaceLeft_visible (s : string) :
  firstVisible s = true -> skipSpaceLeft s = inl s.
Proof.
  destruct s as [|c rest]; [discriminate|]. unfold firstVisible, visible.
  intros Hc. apply andb_true_iff in Hc as [Hascii Hspace].
  apply negb_true_iff in Hspace. simpl. rewrite Hascii, Hspace. reflexivity.
Qed.

Lemma skipSpaceRight_all_spaces (ws : string) :
  allSpace ws = true -> skipSpaceRight ws = inl EmptyString.
Proof.
  induction ws as [|c ws IH]; [reflexivity|]. simpl allSpace.
  intros Hws. apply andb_true_iff in Hws as [Hc Hws].
  simpl. rewrite (IH Hws), (asciiSpace_isASCII c Hc), Hc. reflexivity.
Qed.

Lemma skipSpaceRight_spaces (s ws : string) :
  allSpace ws = true -> skipSpaceRight (s +:+ ws) = skipSpaceRight s.
Proof.
  intros Hws. induction s as [|c s IH].
  - rewrite append_empty. apply skipSpaceRight_all_spaces. exact Hws.
  - rewrite append_cons. simpl. rewrite IH. reflexivity.
Qed.

Lemma skipSpaceRight_visible (s : string) :
  lastVisible s = true -> skipSpaceRight s = inl s.
Proof.
  induction s as [|c s IH]; [discriminate|].
  destruct s as [|c' s'].
  - unfold lastVisible, visible. intros Hc.
    apply andb_true_iff in Hc as [Hascii Hspace]. apply negb_true_iff in Hspace.
    simpl. rewrite Hascii, Hspace. reflexivity.
  - intros Hlast.
    change (lastVisible (String c (String c' s'))) with (lastVisible (String c' s')) in Hlast.
    change (skipSpaceRight (String c (String c' s')))
      with (match skipSpaceRight (String c' s') with
            | inl EmptyString =>
                if negb (isASCII c) then inr (String c EmptyString)
                else if asciiSpace c then inl EmptyString
                else inl (String c EmptyString)
            | inl kept => inl (String c kept)
            | inr kept => inr (String c kept)
            end).
    rewrite (IH Hlast). reflexivity.
Qed.

Lemma lastVisible_append (a b : string) :
  lastVisible b = true -> lastVisible (a +:+ b) = true.
Proof.
  intros Hb. induction a as [|c a IH]; [exact Hb|].
  rewrite append_cons.
  destruct (a +:+ b) as [|c' rest] eqn:Hab; [discriminate IH|]. exact IH.
Qed.

Lemma firstVisible_append (a b : string) :
  firstVisible a = true -> firstVisible (a +:+ b) = true.
Proof. destruct a as [|c a]; [discriminate|]. intros Ha. exact Ha. Qed.

Lemma length_append (a b : string) :
  String.length (a +:+ b) = (String.length a + String.length b)%nat.
Proof.
  induction a as [|c a IH]; [reflexivity|].
  rewrite append_cons. simpl. rewrite IH. reflexivity.
Qed.

Lemma String_eqb_longer (c : ascii) (front suffix : string) :
  String.eqb (String c (front +:+ suffix)) suffix = false.
Proof.
  apply String.eqb_neq. intros Heq.
  apply (f_equal String.length) in Heq. simpl in Heq.
  rewrite length_append in Heq. lia.
Qed.

Lemma strip_suffix_cons (suffix : string) (c : ascii) (rest : string) :
  strip_suffix suffix (String c rest) =
  if String.eqb (String c rest) suffix then Some EmptyString
  else match strip_suffix suffix rest with
       | Some front => Some (String c front)
       | None => None
       end.
Proof. reflexivity. Qed.

Lemma strip_suffix_append (front suffix : string) :
  strip_suffix suffix (front +:+ suffix) = Some front.
Proof.
  induction front as [|c front IH].
  - rewrite append_empty. destruct suffix as [|c rest].
    + reflexivity.
    + rewrite strip_suffix_cons, String.eqb_refl. reflexivity.
  - rewrite append_cons, strip_suffix_cons, String_eqb_longer, IH. reflexivity.
Qed.

Section CleanJSON.

Variable unicode_TrimFunc : string -> string.
Variable unicode_TrimRightFunc : string -> string.

(** [strings.TrimSpace] on a string with ASCII spaces around a text
    that starts and ends with visible ASCII bytes: the text, whatever bytes
    lie between. *)
Lemma strings_TrimSpace_around (ws1 text ws2 : string) :
  allSpace ws1 = true -> allSpace ws2 = true ->
  firstVisible text = true -> lastVisible text = true ->
  strings_TrimSpace unicode_TrimFunc unicode_TrimRightFunc (ws1 +:+ text +:+ ws2) = text.
Proof.
  intros Hws1 Hws2 Hfirst Hlast. unfold strings_TrimSpace.
  rewrite skipSpaceLeft_spaces by exact Hws1.
  rewrite skipSpaceLeft_visible by (apply firstVisible_append; exact Hfirst).
  rewrite skipSpaceRight_spaces by exact Hws2.
  rewrite skipSpaceRight_visible by exact Hlast. reflexivity.
Qed.

(** X16: [cleanJSONResponse] takes a text out of a Markdown fence: with
    ASCII white space [ws1 .. ws4] and a text that starts and ends with a
    visible ASCII byte (any bytes between), it turns
    [ws1 ```json ws2 text ws3 ``` ws4] into [text]; and it returns a text
    without the opening [```json] and the closing fence as it is, less the
    white space around it. *)
Theorem cleanJSONResponse_unfences (ws1 ws2 ws3 ws4 text : string) :
  allSpace ws1 = true -> allSpace ws2 = true ->
  allSpace ws3 = true -> allSpace ws4 = true ->
  firstVisible text = true -> lastVisible text = true ->
  cleanJSONResponse unicode_TrimFunc unicode_TrimRightFunc
    (ws1 +:+ ("```json" +:+ ws2 +:+ text +:+ ws3 +:+ "```") +:+ ws4) = text
  /\ (strip_prefix "```json" text = None ->
      strip_suffix "```" text = None ->
      cleanJSONResponse unicode_TrimFunc unicode_TrimRightFunc (ws1 +:+ text +:+ ws4)
      = text).
Proof.
  intros Hws1 Hws2 Hws3 Hws4 Hfirst Hlast. unfold cleanJSONResponse. split.
  - rewrite strings_TrimSpace_around; try assumption.
    + unfold strings_TrimPrefix. rewrite strip_prefix_append.
      unfold strings_TrimSuffix.
      replace (ws2 +:+ text +:+ ws3 +:+ "```") with ((ws2 +:+ text +:+ ws3) +:+ "```")
        by (rewrite !append_assoc; reflexivity).
      rewrite strip_suffix_append.
      apply strings_TrimSpace_around; assumption.
    + reflexivity.
    + rewrite <- !append_assoc. apply lastVisible_append. reflexivity.
  - intros Hopen Hclose.
    rewrite strings_TrimSpace_around by assumption.
    unfold strings_TrimPrefix, strings_TrimSuffix. rewrite Hopen, Hclose.
    unfold strings_TrimSpace.
    rewrite skipSpaceLeft_visible, skipSpaceRight_visible by assumption. reflexivity.
Qed.

End CleanJSON.

Lemma cleanJSONResponse_unfences_witness :
  cleanJSONResponse (fun s => s) (fun s => s) fencedAnswer = answerText
  /\ (strip_prefix "```json" answerText = None ->
      strip_suffix "```" answerText = None ->
      cleanJSONResponse (fun s => s) (fun s => s) ("  " +:+ answerText +:+ lineFeed)
      = answerText).
Proof.
  apply (cleanJSONResponse_unfences (fun s => s) (fun s => s)
           "  " lineFeed lineFeed lineFeed answerText); reflexivity.
Defined.

Section Results.

Variable w : World.
Variable c : Client.
Variable ctx : Context.

Lemma chatLoop_result_forms (req : ChatRequest) (passes : nat) (st : LoopState) :
  (returned (chatLoop w c ctx req passes st) = (zeroChatResponse, Some (ctx_Err ctx))
   /\ Done_at ctx <> None)
  \/ (exists apiResp,
        returned (chatLoop w c ctx req passes st) = parseResponse w apiResp
        /\ StatusCode apiResp < 500 /\ StatusCode apiResp <> 429)
  \/ (exists st',
        returned (chatLoop w c ctx req passes st)
        = (zeroChatResponse, Some (maxRetriesExceeded (lastErr st')))).
Proof.
  revert st. induction passes as [|passes IH]; intros st; simpl.
  - right. right. exists st. reflexivity.
  - unfold iteration.
    destruct (waitBackoff w ctx st) as [|woke] eqn:Hwait.
    + left. simpl. split; [reflexivity|].
      unfold waitBackoff, select_Done_or_After, done_ready in Hwait.
      intros Hlive. rewrite Hlive in Hwait.
      destruct (0 <? attempt st); discriminate Hwait.
    + destruct (doRequest w c (attempt st) woke req) as [[out back] call].
      destruct out as [apiResp|err].
      * destruct (shouldRetry None (Some apiResp)) eqn:Hretry; simpl.
        -- apply IH.
        -- right. left. exists apiResp. split; [reflexivity|].
           assert (Hno : ~ (StatusCode apiResp = 429 \/ 500 <= StatusCode apiResp)).
           { rewrite <- shouldRetry_status, Hretry. discriminate. }
           lia.
      * simpl. apply IH.
Qed.

(** X17: what [Chat] returns is of one of three forms: the context's
    error with the zero response, when a backoff wait was cut short (the
    context is then one that can be done); what [parseResponse] makes of a
    response whose status is neither 429 nor 500 or above; or the
    max-retries error with the zero response. An error of the transport is
    never returned bare: it comes back only as the cause in the
    max-retries error. *)
Theorem Chat_result_forms (req : ChatRequest) :
  (returned (Chat w c ctx req) = (zeroChatResponse, Some (ctx_Err ctx))
   /\ Done_at ctx <> None)
  \/ (exists apiResp,
        returned (Chat w c ctx req) = parseResponse w apiResp
        /\ StatusCode apiResp < 500 /\ StatusCode apiResp <> 429)
  \/ (exists cause,
        returned (Chat w c ctx req)
        = (zeroChatResponse, Some (maxRetriesExceeded cause))).
Proof.
  unfold Chat.
  destruct (chatLoop_result_forms (withDefaultModel c req)
              (Z.to_nat (maxRetries c + 1)) (initialState w))
    as [Hctx|[Hparse|(st' & Hmax)]].
  - left. exact Hctx.
  - right. left. exact Hparse.
  - right. right. exists (lastErr st'). exact Hmax.
Qed.

End Results.
